(** * ComplexReactor: a shallow embedding of [src/ComplexReactor.cpp]

    The class holds two reagent quantities, a conversion fraction, an
    output-mode flag, a split ratio and the last computed products.  Every
    method is embedded as a function on the record of its data members; a
    method that may throw returns, next to its outcome, the object as the
    throw left it, because in C++ an assignment made before a [throw] stays
    made.

    The arithmetic is the arithmetic of [double]: IEEE-754 binary64, taken
    from the Standard Library's executable specification [SpecFloat].  The
    methods are written once over an interface of scalar operations, so
    that the same program text can also be run over exact rationals; the
    distance between the two runs is bounded from the rounding of each
    binary64 operation. *)

From Stdlib Require Import ZArith NArith Zpower QArith Qabs Qpower Qminmax.
From Stdlib Require Import Bool List String Lia Lqa Morphisms.
From Stdlib Require Import SpecFloat.
Import ListNotations.

Set Implicit Arguments.

(** ** Scalars *)

(** The operations the class applies to its numbers: the literals [0.0] and
    [1.0], [*], [-], [<] and [>].  [fadd] and [fle] are not used by the
    class; they are here to state properties of its results. *)
Class Scalar (T : Type) : Type := {
  fzero : T;
  fone : T;
  fadd : T -> T -> T;
  fsub : T -> T -> T;
  fmul : T -> T -> T;
  flt : T -> T -> bool;
  fle : T -> T -> bool
}.

Declare Scope scalar_scope.
Delimit Scope scalar_scope with fl.
Infix "+" := fadd : scalar_scope.
Infix "-" := fsub : scalar_scope.
Infix "*" := fmul : scalar_scope.
Infix "<?" := flt : scalar_scope.
Infix "<=?" := fle : scalar_scope.
Notation "x >? y" := (flt y x) (only parsing) : scalar_scope.

(** ** Exceptions and methods *)

Inductive exception : Type :=
| invalid_argument (what : string)
| out_of_range (what : string).

Inductive outcome (A : Type) : Type :=
| Return (v : A)
| Throw (e : exception).
Arguments Return {A} v.
Arguments Throw {A} e.

Definition threw {A : Type} (o : outcome A) : bool :=
  match o with Return _ => false | Throw _ => true end.

Section Reactor.

Context {T : Type} {ops : Scalar T}.
Local Open Scope scalar_scope.

(** The data members, in the order of their declaration. *)
Record ComplexReactor : Type := mkReactor {
  a_ : T;
  b_ : T;
  conversion_ : T;
  twoOutputs_ : bool;
  splitRatio_ : T;
  lastOutputs_ : list T
}.

(** A non-const method: the outcome and the object after the call. *)
Definition method (A : Type) : Type := ComplexReactor -> outcome A * ComplexReactor.

(** A const method reads the object and cannot change it. *)
Definition const_method (A : Type) : Type := ComplexReactor -> outcome A.

Definition ret {A : Type} (v : A) : method A := fun this => (Return v, this).

Definition throw {A : Type} (e : exception) : method A := fun this => (Throw e, this).

Definition bind {A B : Type} (m : method A) (k : A -> method B) : method B :=
  fun this =>
    match m this with
    | (Return v, this') => k v this'
    | (Throw e, this') => (Throw e, this')
    end.

Definition call_const {A : Type} (m : const_method A) : method A :=
  fun this => (m this, this).

Definition read {A : Type} (field : ComplexReactor -> A) : method A :=
  fun this => (Return (field this), this).

Definition assign_a (v : T) : method unit := fun this =>
  (Return tt, mkReactor v (b_ this) (conversion_ this) (twoOutputs_ this)
                        (splitRatio_ this) (lastOutputs_ this)).

Definition assign_b (v : T) : method unit := fun this =>
  (Return tt, mkReactor (a_ this) v (conversion_ this) (twoOutputs_ this)
                        (splitRatio_ this) (lastOutputs_ this)).

Definition assign_conversion (v : T) : method unit := fun this =>
  (Return tt, mkReactor (a_ this) (b_ this) v (twoOutputs_ this)
                        (splitRatio_ this) (lastOutputs_ this)).

Definition assign_twoOutputs (v : bool) : method unit := fun this =>
  (Return tt, mkReactor (a_ this) (b_ this) (conversion_ this) v
                        (splitRatio_ this) (lastOutputs_ this)).

Definition assign_splitRatio (v : T) : method unit := fun this =>
  (Return tt, mkReactor (a_ this) (b_ this) (conversion_ this) (twoOutputs_ this)
                        v (lastOutputs_ this)).

Definition assign_lastOutputs (v : list T) : method unit := fun this =>
  (Return tt, mkReactor (a_ this) (b_ this) (conversion_ this) (twoOutputs_ this)
                        (splitRatio_ this) v).

Notation "x <- m ;; k" := (bind m (fun x => k))
  (at level 61, m at next level, right associativity).
Notation "m ;; k" := (bind m (fun _ => k))
  (at level 61, right associativity).

(** [std::min(a, b)]: [b] when [b < a], otherwise [a]. *)
Definition std_min (a b : T) : T := if b <? a then b else a.

(** ** The methods *)

Definition validateParams : const_method unit := fun this =>
  if (conversion_ this <? fzero) || (conversion_ this >? fone)
  then Throw (invalid_argument "conversion must be in [0,1]")
  else if (splitRatio_ this <? fzero) || (splitRatio_ this >? fone)
  then Throw (invalid_argument "splitRatio must be in [0,1]")
  else Return tt.

(** The constructor initialises the members and validates; when it throws
    there is no object. *)
Definition new_ComplexReactor (conversion : T) (twoOutputs : bool) (splitRatio : T)
  : outcome ComplexReactor :=
  let this := mkReactor fzero fzero conversion twoOutputs splitRatio [] in
  match validateParams this with
  | Return _ => Return this
  | Throw e => Throw e
  end.

Definition setInputs (a b : T) : method unit :=
  if (a <? fzero) || (b <? fzero)
  then throw (invalid_argument "inputs must be non-negative")
  else assign_a a ;; assign_b b.

Definition setConversion (conversion : T) : method unit :=
  assign_conversion conversion ;;
  call_const validateParams.

Definition setTwoOutputs (two : bool) : method unit :=
  assign_twoOutputs two.

Definition setSplitRatio (ratio : T) : method unit :=
  assign_splitRatio ratio ;;
  call_const validateParams.

Definition runReaction : method (list T) :=
  a <- read a_ ;;
  b <- read b_ ;;
  conversion <- read conversion_ ;;
  twoOutputs <- read twoOutputs_ ;;
  splitRatio <- read splitRatio_ ;;
  let limiting := std_min a b in
  let reacted := limiting * conversion in
  if negb twoOutputs then
    let R := reacted in
    assign_lastOutputs [R] ;;
    read lastOutputs_
  else
    let R := reacted * splitRatio in
    let S := reacted * (fone - splitRatio) in
    assign_lastOutputs [R; S] ;;
    read lastOutputs_.

(** [a_ = b_ = 0.0] assigns [b_] first. *)
Definition reset : method unit :=
  assign_b fzero ;;
  assign_a fzero ;;
  assign_lastOutputs [].

(** [idx] is a [size_t].  The subscript is reached only below the size, so
    the default of [nth] is never returned. *)
Definition getLastOutput (idx : N) : const_method T := fun this =>
  if (N.of_nat (List.length (lastOutputs_ this)) <=? idx)%N
  then Throw (out_of_range "output index out of range")
  else Return (nth (N.to_nat idx) (lastOutputs_ this) fzero).

(** ** Clients *)

(** A client holds one reactor and calls its public methods one after the
    other; an exception is caught by the client (as [EXPECT_THROW] does in
    the tests) and the object lives on as the throwing call left it. *)
Inductive call : Type :=
| SetInputs (a b : T)
| SetConversion (conversion : T)
| SetTwoOutputs (two : bool)
| SetSplitRatio (ratio : T)
| RunReaction
| Reset
| GetLastOutput (idx : N).

Definition invoke (c : call) : method unit :=
  match c with
  | SetInputs a b => setInputs a b
  | SetConversion conversion => setConversion conversion
  | SetTwoOutputs two => setTwoOutputs two
  | SetSplitRatio ratio => setSplitRatio ratio
  | RunReaction => runReaction ;; ret tt
  | Reset => reset
  | GetLastOutput idx => call_const (getLastOutput idx) ;; ret tt
  end.

(** The object after a call, whether the call returned or threw. *)
Definition after (c : call) (this : ComplexReactor) : ComplexReactor :=
  snd (invoke c this).

Definition run (calls : list call) (this : ComplexReactor) : ComplexReactor :=
  fold_left (fun r c => after c r) calls this.

(** Every call of the list returns. *)
Fixpoint all_return (calls : list call) (this : ComplexReactor) : bool :=
  match calls with
  | [] => true
  | c :: calls' =>
      negb (threw (fst (invoke c this))) && all_return calls' (after c this)
  end.

(** The states a client can bring a reactor to. *)
Definition reachable (this : ComplexReactor) : Prop :=
  exists conversion twoOutputs splitRatio this0 calls,
    new_ComplexReactor conversion twoOutputs splitRatio = Return this0 /\
    this = run calls this0.

Definition is_run (c : call) : bool :=
  match c with RunReaction => true | _ => false end.

Definition is_reset (c : call) : bool :=
  match c with Reset => true | _ => false end.

(** ** Ranges *)

(** [v] lies in [[0,1]]. *)
Definition in_unit (v : T) : bool := (fzero <=? v) && (v <=? fone).

(** [v] lies outside [[0,1]]: below 0 or above 1. *)
Definition outside_unit (v : T) : bool := (v <? fzero) || (v >? fone).

(** The ranges the data model gives the four numbers. *)
Definition in_range (this : ComplexReactor) : bool :=
  in_unit (conversion_ this) && in_unit (splitRatio_ this) &&
  (fzero <=? a_ this) && (fzero <=? b_ this).

(** The state passes every test the class makes on its numbers. *)
Definition accepted (this : ComplexReactor) : bool :=
  negb (outside_unit (conversion_ this)) && negb (outside_unit (splitRatio_ this)) &&
  negb (a_ this <? fzero) && negb (b_ this <? fzero).

(** ** The result of a run *)

(** What [runReaction] computes from the members. *)
Definition products (this : ComplexReactor) : list T :=
  let reacted := std_min (a_ this) (b_ this) * conversion_ this in
  if twoOutputs_ this
  then [reacted * splitRatio_ this; reacted * (fone - splitRatio_ this)]
  else [reacted].

(** [this] with [lastOutputs_] replaced. *)
Definition with_lastOutputs (out : list T) (this : ComplexReactor) : ComplexReactor :=
  mkReactor (a_ this) (b_ this) (conversion_ this) (twoOutputs_ this)
            (splitRatio_ this) out.

End Reactor.

Arguments ComplexReactor T : clear implicits.
Arguments method T A : clear implicits.
Arguments const_method T A : clear implicits.
Arguments call T : clear implicits.

(** ** Binary64 *)

(** A [double] is a binary64 number: 53 bits of precision, infinities at
    exponent 1024. *)
Definition double : Type := spec_float.

Definition prec : Z := 53.
Definition emax : Z := 1024.

(** The literals [0.0] and [1.0]. *)
Definition d0 : double := S754_zero false.
Definition d1 : double := S754_finite false 4503599627370496 (-52).

(** The C++ operators on [double], round-to-nearest-even. *)
#[export] Instance double_ops : Scalar double := {
  fzero := d0;
  fone := d1;
  fadd := SFadd prec emax;
  fsub := SFsub prec emax;
  fmul := SFmul prec emax;
  flt := SFltb;
  fle := SFleb
}.

(** The values a [double] variable can hold. *)
Definition is_double (x : double) : bool := valid_binary prec emax x.

(** The literals of the tests: mantissa and exponent of the nearest
    binary64 number. *)
Definition d0_5 : double := S754_finite false 4503599627370496 (-53).
Definition d0_25 : double := S754_finite false 4503599627370496 (-54).
Definition d2 : double := S754_finite false 4503599627370496 (-51).
Definition d3 : double := S754_finite false 6755399441055744 (-51).
Definition d10 : double := S754_finite false 5629499534213120 (-49).
(** 0.7 is [0x1.6666666666666p-1], 0.3 is [0x1.3333333333333p-2],
    1.2 is [0x1.3333333333333p+0], -0.1 is [-0x1.999999999999ap-4]. *)
Definition d0_7 : double := S754_finite false 6305039478318694 (-53).
Definition d0_3 : double := S754_finite false 5404319552844595 (-54).
Definition d1_2 : double := S754_finite false 5404319552844595 (-52).
Definition dm0_1 : double := S754_finite true 7205759403792794 (-56).

Definition dNaN : double := S754_nan.
Definition dInf : double := S754_infinity false.

(** ** Values *)

Definition pow2 (e : Z) : Q := Qpower 2 e.

(** The value of a mantissa and an exponent. *)
Definition F2Q (m e : Z) : Q := inject_Z m * pow2 e.

(** A zero or a finite number, of either sign. *)
Definition is_finite (x : double) : bool :=
  match x with
  | S754_zero _ | S754_finite _ _ _ => true
  | S754_infinity _ | S754_nan => false
  end.

(** Finite and not negative. *)
Definition nonneg_finite (x : double) : bool :=
  match x with
  | S754_zero _ | S754_finite false _ _ => true
  | _ => false
  end.

(** The value of a finite [double]; 0 for an infinity or a NaN. *)
Definition Qval (x : double) : Q :=
  match x with
  | S754_finite s m e => if s then - F2Q (Zpos m) e else F2Q (Zpos m) e
  | _ => 0
  end.

(** The exact value of a finite [double], in lowest terms. *)
Definition double_to_Q (x : double) : option Q :=
  if is_finite x then Some (Qred (Qval x)) else None.

(** ** Rounding *)

(** The bound on the error of one rounded operation with exact result [v]:
    half a unit in the last place, [2^-53 * v] for a normal result and
    [2^-1075] for a subnormal one. *)
Definition rnd_err (v : Q) : Q := pow2 (-53) * v + pow2 (-1075).

(** What [binary_round_aux] makes of a rounded mantissa and its exponent. *)
Definition round_result (mr er : Z) : double :=
  match mr with
  | Z0 => S754_zero false
  | Zpos p =>
      if (er <=? emax - prec)%Z then S754_finite false p er else S754_infinity false
  | Zneg _ => S754_nan
  end.

(** [mrs] is [m] with [k] bits shifted out: [rem] is what they held,
    [shr_r] says that the first of them was set and [shr_s] that a later one
    was. *)
Definition shr_inv (m : Z) (k : Z) (mrs : shr_record) : Prop :=
  (0 <= shr_m mrs)%Z /\
  exists rem : Z,
    (m = shr_m mrs * 2 ^ k + rem)%Z /\ (0 <= rem < 2 ^ k)%Z /\
    (shr_r mrs = true <-> (2 ^ k <= 2 * rem)%Z) /\
    (shr_s mrs = true <-> ((2 * rem) mod 2 ^ k)%Z <> 0%Z).

(** [ComplexReactor r;] *)
Definition default_ComplexReactor : outcome (ComplexReactor double) :=
  new_ComplexReactor d0_5 false d0_5.

(** Inputs (3, 3), conversion 1, two products, split 0.3. *)
Definition state_3_3_split_0_3 : ComplexReactor double :=
  mkReactor d3 d3 fone true d0_3 [].

(** ** Exact arithmetic *)

(** The same operations without rounding. *)
#[export] Instance Q_ops : Scalar Q := {
  fzero := 0%Q;
  fone := 1%Q;
  fadd := Qplus;
  fsub := Qminus;
  fmul := Qmult;
  flt := fun x y => negb (Qle_bool y x);
  fle := Qle_bool
}.

(** ** Further predicates and states *)

(** The four numbers of the state are binary64 numbers. *)
Definition members_are_doubles (this : ComplexReactor double) : bool :=
  is_double (a_ this) && is_double (b_ this) &&
  is_double (conversion_ this) && is_double (splitRatio_ this).

(** The state with every number replaced by its exact value. *)
Definition exact_state (this : ComplexReactor double) : ComplexReactor Q :=
  mkReactor (Qval (a_ this)) (Qval (b_ this)) (Qval (conversion_ this))
            (twoOutputs_ this) (Qval (splitRatio_ this))
            (map Qval (lastOutputs_ this)).

Definition is_nan (x : double) : bool :=
  match x with
  | S754_nan => true
  | _ => false
  end.

(** No argument of the call is a NaN. *)
Definition nan_free_call (c : call double) : bool :=
  match c with
  | SetInputs a b => negb (is_nan a) && negb (is_nan b)
  | SetConversion v | SetSplitRatio v => negb (is_nan v)
  | _ => true
  end.

(** No number of the state is a NaN. *)
Definition nan_free (this : ComplexReactor double) : bool :=
  negb (is_nan (a_ this)) && negb (is_nan (b_ this)) &&
  negb (is_nan (conversion_ this)) && negb (is_nan (splitRatio_ this)).

Definition is_read {T : Type} (c : call T) : bool :=
  match c with
  | GetLastOutput _ => true
  | _ => false
  end.

(** Neither input is negative and at most two outputs are stored. *)
Definition inputs_and_outputs_ok (this : ComplexReactor double) : bool :=
  negb (a_ this <? fzero)%fl && negb (b_ this <? fzero)%fl &&
  (List.length (lastOutputs_ this) <=? 2)%nat.

(** The object [ComplexReactor r;] declares. *)
Definition default_state : ComplexReactor double :=
  mkReactor fzero fzero d0_5 false d0_5 [].

(** A default reactor with inputs (2, 2). *)
Definition state_2_2 : ComplexReactor double :=
  mkReactor d2 d2 d0_5 false d0_5 [].

(** Inputs (3, 10), conversion 0.7, two products, split 0.3. *)
Definition state_3_10_split_0_3 : ComplexReactor double :=
  mkReactor d3 d10 d0_7 true d0_3 [].

(** Inputs (3, 10), conversion 0.7, two products, split 1. *)
Definition state_3_10_split_1 : ComplexReactor double :=
  mkReactor d3 d10 d0_7 true fone [].


(** The calls of the test [MultipleRunsAndReset]. *)
Definition calls_MultipleRunsAndReset : list (call double) :=
  [SetInputs d2 d2; RunReaction; SetConversion d0_25; RunReaction; Reset;
   SetInputs fone fone; RunReaction].

(** A rejected [setInputs(-0.1, 2)], a rejected [setConversion(2.0)] and a
    run. *)
Definition calls_with_rejections : list (call double) :=
  [SetInputs dm0_1 d2; SetConversion d2; RunReaction].

(** ** Proof steps *)

Ltac unfold_methods :=
  unfold after, invoke, setInputs, setConversion, setTwoOutputs, setSplitRatio,
    reset, bind, call_const, validateParams, throw, ret, read,
    assign_a, assign_b, assign_conversion, assign_twoOutputs,
    assign_splitRatio, assign_lastOutputs.

Ltac split_tests :=
  repeat match goal with
         | |- context [if ?b then _ else _] => destruct b
         end.

(** ** The scenarios of the test suite *)

(** The literals are binary64 numbers, with these exact values. *)
Example literals_are_doubles :
  forallb is_double [fzero; fone; d0_5; d0_25; d2; d3; d10; d0_7; d0_3; d1_2; dm0_1]
    = true.
Proof. reflexivity. Qed.

Example exact_literals :
  map double_to_Q [fzero; fone; d0_5; d0_25; d2; d3; d10] =
    [Some 0; Some 1; Some (1 # 2); Some (1 # 4); Some 2; Some 3; Some (10 # 1)]%Q.
Proof. reflexivity. Qed.

(** 0.3 and 0.7 are not binary64 numbers; [d0_3] and [d0_7] lie within
    half a unit in the last place of them. *)
Example rounded_literals :
  exists v3 v7 : Q,
    double_to_Q d0_3 = Some v3 /\ double_to_Q d0_7 = Some v7 /\
    Qle_bool (Qabs (v3 - (3 # 10))) (Qpower 2 (-55)) = true /\
    Qle_bool (Qabs (v7 - (7 # 10))) (Qpower 2 (-54)) = true.
Proof. do 2 eexists. repeat split; reflexivity. Qed.

(** Test 1: default reactor, inputs (2, 2): one product, 1.0. *)
Example SingleOutputBasic :
  exists r, default_ComplexReactor = Return r /\
    fst (runReaction (after (SetInputs d2 d2) r)) = Return [fone].
Proof. eexists. split; reflexivity. Qed.

(** Test 2: conversion 1, split 0.7, inputs (1, 1): the products are 0.7
    and [1.0 - 0.7], which is one unit in the last place above 0.3. *)
Example TwoOutputsSplit :
  exists r, new_ComplexReactor fone true d0_7 = Return r /\
    fst (runReaction (after (SetInputs fone fone) r)) =
      Return [d0_7; S754_finite false 5404319552844596 (-54)].
Proof. eexists. split; reflexivity. Qed.

(** Test 3: the smaller input limits the reaction. *)
Example LimitingReagent :
  exists r, new_ComplexReactor fone false d0_5 = Return r /\
    fst (runReaction (after (SetInputs d0_5 d10) r)) = Return [d0_5].
Proof. eexists. split; reflexivity. Qed.

(** Test 4: parameters out of range throw. *)
Example InvalidConversionThrows :
  threw (new_ComplexReactor dm0_1 false d0_5) = true /\
  threw (new_ComplexReactor d1_2 false d0_5) = true /\
  exists r, default_ComplexReactor = Return r /\
    threw (fst (setSplitRatio d2 r)) = true.
Proof. repeat split. eexists. split; reflexivity. Qed.

(** Test 5: two runs, then a reset, then no output to read. *)
Example MultipleRunsAndReset :
  exists r, new_ComplexReactor d0_5 true d0_5 = Return r /\
    let r1 := after (SetInputs d2 d2) r in
    fst (runReaction r1) = Return [d0_5; d0_5] /\
    let r2 := after (SetInputs fone fone) (after RunReaction r1) in
    fst (runReaction r2) = Return [d0_25; d0_25] /\
    getLastOutput 0 (after Reset (after RunReaction r2)) =
      Throw (out_of_range "output index out of range").
Proof. eexists. repeat split. Qed.

(** ** The order of binary64 *)

Lemma SFcompare_antisym (x y : double) :
  SFcompare y x = option_map CompOpp (SFcompare x y).
Proof.
  destruct x as [sx | sx | | sx mx ex], y as [sy | sy | | sy my ey]; simpl;
    try reflexivity;
    try (destruct sx; reflexivity);
    try (destruct sy; reflexivity);
    try (destruct sx, sy; reflexivity).
  assert (Hm : Pos.compare_cont Eq my mx = CompOpp (Pos.compare_cont Eq mx my))
    by (rewrite Pos.compare_cont_antisym; reflexivity).
  rewrite (Z.compare_antisym ex ey), Hm.
  destruct sx, sy; simpl; try reflexivity;
    destruct (ex ?= ey)%Z; reflexivity.
Qed.

Lemma SFcompare_refl (x : double) : x <> S754_nan -> SFcompare x x = Some Eq.
Proof.
  destruct x as [s | s | | s m e]; simpl; intros H;
    try reflexivity; try congruence.
  - destruct s; reflexivity.
  - rewrite Z.compare_refl, Pos.compare_cont_refl. destruct s; reflexivity.
Qed.

Lemma SFleb_not_nan_r (x y : double) : SFleb x y = true -> y <> S754_nan.
Proof.
  unfold SFleb. intros H ->.
  destruct x; simpl in H; discriminate.
Qed.

Lemma SFleb_refl (x : double) : x <> S754_nan -> SFleb x x = true.
Proof. intros H. unfold SFleb. rewrite (SFcompare_refl H). reflexivity. Qed.

Lemma SFltb_leb (x y : double) : SFltb x y = true -> SFleb x y = true.
Proof. unfold SFltb, SFleb. destruct (SFcompare x y) as [[ | | ] | ]; auto. Qed.

(** [x <= y] excludes [y < x]. *)
Lemma SFleb_not_gt (x y : double) : SFleb x y = true -> SFltb y x = false.
Proof.
  unfold SFltb, SFleb. rewrite (SFcompare_antisym x y).
  destruct (SFcompare x y) as [[ | | ] | ]; simpl; auto.
Qed.

(** Only a NaN is unordered. *)
Lemma SFcompare_total (x y : double) :
  x <> S754_nan -> y <> S754_nan -> exists c, SFcompare x y = Some c.
Proof.
  intros Hx Hy. destruct x, y; try congruence; simpl; eauto.
Qed.

(** Two numbers are comparable: one of [y < x] and [x <= y] holds. *)
Lemma SFltb_false_leb (x y : double) :
  x <> S754_nan -> y <> S754_nan -> SFltb y x = false -> SFleb x y = true.
Proof.
  intros Hx Hy. destruct (SFcompare_total Hx Hy) as [c Hc].
  unfold SFltb, SFleb. rewrite (SFcompare_antisym x y), Hc.
  destruct c; simpl; congruence.
Qed.

(** Among numbers [std::min] is the minimum. *)
Lemma std_min_is_min (a b : double) :
  a <> S754_nan -> b <> S754_nan ->
  (std_min a b = a \/ std_min a b = b) /\
  SFleb (std_min a b) a = true /\ SFleb (std_min a b) b = true.
Proof.
  intros Ha Hb. unfold std_min. simpl.
  destruct (SFltb b a) eqn:E.
  - repeat split; auto using SFltb_leb, SFleb_refl.
  - repeat split; auto using SFltb_false_leb, SFleb_refl.
Qed.

(** Inside [[0,1]] is not outside. *)
Lemma in_unit_not_outside (v : double) :
  in_unit v = true -> outside_unit v = false.
Proof.
  unfold in_unit, outside_unit. simpl. intros H.
  apply andb_true_iff in H as [H0 H1].
  rewrite (SFleb_not_gt _ _ H0), (SFleb_not_gt _ _ H1). reflexivity.
Qed.

(** For a number, outside is the complement of inside; a NaN is neither. *)
Lemma outside_unit_complement (v : double) :
  v <> S754_nan -> outside_unit v = negb (in_unit v).
Proof.
  intros Hv. destruct (in_unit v) eqn:E.
  - apply in_unit_not_outside. exact E.
  - unfold in_unit, outside_unit in *. simpl in *.
    assert (H0 : d0 <> S754_nan) by discriminate.
    assert (H1 : d1 <> S754_nan) by discriminate.
    destruct (SFltb v d0) eqn:E0; [reflexivity | ].
    destruct (SFltb d1 v) eqn:E1; [reflexivity | ].
    rewrite (SFltb_false_leb H0 Hv E0), (SFltb_false_leb Hv H1 E1) in E.
    discriminate.
Qed.

Lemma nan_neither_inside_nor_outside :
  in_unit dNaN = false /\ outside_unit dNaN = false.
Proof. split; reflexivity. Qed.

(** ** Rounding to nearest *)

(** [SFmul], [SFadd] and [SFsub] round an exact mantissa and exponent with
    [binary_round_aux]: it shifts out the bits that do not fit, remembering
    the first of them and whether a later one was set, rounds to nearest
    (ties to even) and shifts once more if the rounding carried.  The
    lemmas of this part bound the error of that rounding by half a unit in
    the last place. *)

Section ShiftAndRound.

Local Open Scope Z_scope.

(** [iter_pos f p] applies [f] [p] times. *)
Lemma iter_pos_comm {A : Type} (f : A -> A) (p : positive) :
  forall x, iter_pos f p (f x) = f (iter_pos f p x).
Proof.
  induction p as [p IH | p IH | ]; intros x; simpl.
  - rewrite !IH. reflexivity.
  - rewrite !IH. reflexivity.
  - reflexivity.
Qed.

Lemma iter_pos_succ {A : Type} (f : A -> A) (p : positive) (x : A) :
  iter_pos f (Pos.succ p) x = f (iter_pos f p x).
Proof.
  revert x. induction p as [p IH | p IH | ]; intros x; simpl.
  - rewrite !IH, !iter_pos_comm. reflexivity.
  - rewrite !iter_pos_comm. reflexivity.
  - reflexivity.
Qed.

(** Shifting keeps [shr_inv]. *)
Lemma shr_inv_0 (m : Z) : 0 <= m -> shr_inv m 0 (Build_shr_record m false false).
Proof.
  intros Hm. split; [exact Hm | ]. exists 0. cbn [shr_m shr_r shr_s].
  rewrite Z.pow_0_r, Z.mod_1_r.
  repeat split; try lia; intros; try discriminate.
Qed.

Lemma shr_1_inv (m k : Z) (mrs : shr_record) :
  0 <= k -> shr_inv m k mrs -> shr_inv m (k + 1) (shr_1 mrs).
Proof.
  intros Hk [Hm (rem & Heq & Hrem & Hr & Hs)].
  destruct mrs as [m' r s]. cbn [shr_m shr_r shr_s] in *.
  assert (Hp : 0 < 2 ^ k) by (apply Z.pow_pos_nonneg; lia).
  assert (Hp1 : 2 ^ (k + 1) = 2 * 2 ^ k) by (rewrite Z.pow_add_r by lia; lia).
  assert (Hors : orb r s = true <-> rem <> 0).
  { rewrite orb_true_iff, Hr, Hs. split.
    - intros [H | H] E; subst rem.
      + lia.
      + apply H. rewrite Z.mod_0_l; lia.
    - intros Hne.
      destruct (Z_le_gt_dec (2 ^ k) (2 * rem)) as [H | H]; [left; exact H | right].
      rewrite Z.mod_small by lia. lia. }
  assert (Hmod : forall b, 0 <= b <= 1 ->
                   (2 * (b * 2 ^ k + rem)) mod 2 ^ (k + 1) = 2 * rem).
  { intros b Hb. rewrite Hp1.
    replace (2 * (b * 2 ^ k + rem)) with (2 * rem + b * (2 * 2 ^ k)) by ring.
    rewrite Z.mod_add by lia. apply Z.mod_small. lia. }
  unfold shr_inv.
  destruct m' as [ | [p | p | ] | p]; cbn [shr_1 shr_m shr_r shr_s]; try lia.
  - (* 0 *)
    split; [lia | ]. exists rem. repeat split; try lia; intros; try discriminate.
    + rewrite Z.mod_small by lia. apply Hors in H. lia.
    + rewrite Z.mod_small in H by lia. apply Hors. lia.
  - (* p~1 *)
    split; [lia | ]. exists (2 ^ k + rem). rewrite Hp1.
    split; [rewrite Heq; change (Zpos p~1) with (2 * Zpos p + 1); ring | ].
    split; [lia | ]. split; [split; intros; auto; lia | ].
    rewrite <- Hp1. specialize (Hmod 1). rewrite Z.mul_1_l in Hmod.
    rewrite Hmod by lia. rewrite Hors. lia.
  - (* p~0 *)
    split; [lia | ]. exists rem. rewrite Hp1.
    split; [rewrite Heq; change (Zpos p~0) with (2 * Zpos p); ring | ].
    split; [lia | ]. split; [split; intros; try discriminate; lia | ].
    rewrite <- Hp1. specialize (Hmod 0). rewrite Z.mul_0_l, Z.add_0_l in Hmod.
    rewrite Hmod by lia. rewrite Hors. lia.
  - (* 1 *)
    split; [lia | ]. exists (2 ^ k + rem). rewrite Hp1.
    split; [rewrite Heq; ring | ].
    split; [lia | ]. split; [split; intros; auto; lia | ].
    rewrite <- Hp1. specialize (Hmod 1). rewrite Z.mul_1_l in Hmod.
    rewrite Hmod by lia. rewrite Hors. lia.
Qed.

Lemma iter_shr_1_inv (m : Z) (p : positive) :
  0 <= m ->
  shr_inv m (Zpos p) (iter_pos shr_1 p (Build_shr_record m false false)).
Proof.
  intros Hm. induction p as [ | p IH] using Pos.peano_ind.
  - change (shr_inv m (0 + 1) (shr_1 (Build_shr_record m false false))).
    apply shr_1_inv; [lia | apply shr_inv_0; exact Hm].
  - rewrite iter_pos_succ, Pos2Z.inj_succ. apply shr_1_inv; [lia | exact IH].
Qed.

(** Rounding to nearest: twice the error is at most the weight of the last
    bit kept. *)
Lemma round_nearest_even_inv (m k : Z) (mrs : shr_record) :
  shr_inv m k mrs ->
  let mx := round_nearest_even (shr_m mrs) (loc_of_shr_record mrs) in
  0 <= mx /\ Z.abs (2 * (mx * 2 ^ k) - 2 * m) <= 2 ^ k /\
  shr_m mrs <= mx <= shr_m mrs + 1.
Proof.
  intros [Hm (rem & Heq & Hrem & Hr & Hs)]. destruct mrs as [m' r s].
  cbn [shr_m shr_r shr_s] in *.
  assert (Hp : 0 < 2 ^ k) by lia.
  destruct r, s; cbn [shr_m loc_of_shr_record round_nearest_even].
  - assert (2 ^ k <= 2 * rem) by (apply Hr; reflexivity).
    rewrite Heq. split; [lia | split; [ | lia]]. apply Z.abs_le. lia.
  - assert (H1 : 2 ^ k <= 2 * rem) by (apply Hr; reflexivity).
    assert (H2 : ~ (2 * rem) mod 2 ^ k <> 0)
      by (intros H; apply Hs in H; discriminate).
    assert (H3 : 2 * rem = 2 ^ k).
    { assert (E : (2 * rem) mod 2 ^ k = 0) by lia.
      apply Z.mod_divide in E; [ | lia]. destruct E as [q E].
      assert (Hq : q = 1).
      { destruct (Z.lt_trichotomy q 1) as [Hq | [Hq | Hq]]; [ | exact Hq | ].
        - assert (q * 2 ^ k <= 0 * 2 ^ k)
            by (apply Z.mul_le_mono_nonneg_r; lia).
          lia.
        - assert (2 * 2 ^ k <= q * 2 ^ k)
            by (apply Z.mul_le_mono_nonneg_r; lia).
          lia. }
      subst q. lia. }
    rewrite Heq.
    destruct (Z.even m'); (split; [lia | split; [ | lia]]); apply Z.abs_le; lia.
  - assert (~ 2 ^ k <= 2 * rem) by (intros H; apply Hr in H; discriminate).
    rewrite Heq. split; [lia | split; [ | lia]]. apply Z.abs_le. lia.
  - assert (~ 2 ^ k <= 2 * rem) by (intros H; apply Hr in H; discriminate).
    rewrite Heq. split; [lia | split; [ | lia]]. apply Z.abs_le. lia.
Qed.

(** [digits2_pos p] is the number of bits of [p]. *)
Lemma digits2_pos_bounds (p : positive) :
  2 ^ (Zpos (digits2_pos p) - 1) <= Zpos p < 2 ^ Zpos (digits2_pos p).
Proof.
  induction p as [p IH | p IH | ]; cbn [digits2_pos].
  - rewrite Pos2Z.inj_succ.
    replace (Z.succ (Zpos (digits2_pos p)) - 1)
      with (Zpos (digits2_pos p) - 1 + 1) by lia.
    rewrite Z.pow_succ_r by lia. rewrite Z.pow_add_r by lia.
    rewrite Z.pow_1_r. change (Zpos p~1) with (2 * Zpos p + 1). lia.
  - rewrite Pos2Z.inj_succ.
    replace (Z.succ (Zpos (digits2_pos p)) - 1)
      with (Zpos (digits2_pos p) - 1 + 1) by lia.
    rewrite Z.pow_succ_r by lia. rewrite Z.pow_add_r by lia.
    rewrite Z.pow_1_r. change (Zpos p~0) with (2 * Zpos p). lia.
  - simpl. lia.
Qed.

Lemma Zdigits2_bounds (m : Z) :
  0 < m -> 2 ^ (Zdigits2 m - 1) <= m < 2 ^ Zdigits2 m.
Proof.
  destruct m as [ | p | p]; try lia. intros _. apply digits2_pos_bounds.
Qed.

(** A number below [2^k] has at most [k] bits. *)
Lemma Zdigits2_le (m k : Z) : 0 < m -> 0 <= k -> m < 2 ^ k -> Zdigits2 m <= k.
Proof.
  intros Hm Hk Hlt. destruct (Zdigits2_bounds Hm) as [Hlo _].
  destruct (Z_le_gt_dec (Zdigits2 m) k) as [H | H]; [exact H | exfalso].
  assert (2 ^ k <= 2 ^ (Zdigits2 m - 1)) by (apply Z.pow_le_mono_r; lia).
  lia.
Qed.

(** The second shift of [binary_round_aux] moves at most one bit, a zero. *)
Lemma shr_fexp_second (mx e1 : Z) :
  0 <= mx <= 2 ^ prec -> emin prec emax <= e1 ->
  exists m2 e2,
    shr_fexp prec emax mx e1 loc_Exact = (Build_shr_record m2 false false, e2) /\
    ((m2 = mx /\ e2 = e1) \/ (mx = 2 * m2 /\ e2 = e1 + 1 /\ 0 < m2)).
Proof.
  intros Hmx He1. unfold shr_fexp, shr_record_of_loc, fexp.
  destruct (Z.eq_dec mx 0) as [-> | Hne].
  - cbn [Zdigits2].
    assert (Hn : Z.max (0 + e1 - prec) (emin prec emax) - e1 <= 0)
      by (unfold prec in *; lia).
    unfold shr. destruct (Z.max (0 + e1 - prec) (emin prec emax) - e1); try lia;
      do 2 eexists; split; try reflexivity; left; split; reflexivity.
  - assert (Hpos : 0 < mx) by lia.
    destruct (Z.eq_dec mx (2 ^ prec)) as [-> | Hne2].
    + change (Zdigits2 (2 ^ prec)) with (prec + 1).
      replace (Z.max (prec + 1 + e1 - prec) (emin prec emax) - e1) with 1 by lia.
      do 2 eexists. split; [reflexivity | ]. right. repeat split.
    + assert (Hd : Zdigits2 mx <= prec).
      { apply Zdigits2_le; unfold prec in *; lia. }
      assert (Hn : Z.max (Zdigits2 mx + e1 - prec) (emin prec emax) - e1 <= 0)
        by lia.
      unfold shr.
      destruct (Z.max (Zdigits2 mx + e1 - prec) (emin prec emax) - e1); try lia;
        do 2 eexists; split; try reflexivity; left; split; reflexivity.
Qed.

End ShiftAndRound.

(** Powers of two over the rationals. *)
Lemma pow2_add (a b : Z) : pow2 (a + b) == pow2 a * pow2 b.
Proof. unfold pow2. apply Qpower_plus. discriminate. Qed.

Lemma pow2_pos (e : Z) : 0 < pow2 e.
Proof. unfold pow2. apply Qpower_0_lt. reflexivity. Qed.

Lemma pow2_le (a b : Z) : (a <= b)%Z -> pow2 a <= pow2 b.
Proof.
  unfold pow2. intros H. apply Qpower_le_compat_l; [exact H | discriminate].
Qed.

Lemma pow2_inject (k : Z) : (0 <= k)%Z -> inject_Z (2 ^ k) == pow2 k.
Proof. intros H. unfold pow2. rewrite Zpower_Qpower by exact H. reflexivity. Qed.

Lemma pow2_double (e : Z) : pow2 e == 2 * pow2 (e - 1).
Proof.
  replace e with (1 + (e - 1))%Z at 1 by lia. rewrite pow2_add. reflexivity.
Qed.

Lemma F2Q_shift (m e k : Z) : (0 <= k)%Z -> F2Q (m * 2 ^ k) e == F2Q m (e + k).
Proof.
  intros Hk. unfold F2Q. rewrite inject_Z_mult, pow2_inject by exact Hk.
  rewrite (Z.add_comm e k), pow2_add. ring.
Qed.

(** Half a unit in the last place of the rounded result is at most
    [2^-53] of the exact value, or [2^-1075] below the normal range. *)
Lemma half_ulp_bound (m : positive) (e e1 : Z) :
  e1 = Z.max (Zpos (digits2_pos m) + e - prec) (emin prec emax) ->
  pow2 (e1 - 1) <= pow2 (-53) * F2Q (Zpos m) e + pow2 (-1075).
Proof.
  intros He1. pose proof (digits2_pos_bounds m) as [Hlo _].
  set (d := Zpos (digits2_pos m)) in *.
  assert (Hm0 : 0 <= pow2 (-53) * F2Q (Zpos m) e).
  { apply Qmult_le_0_compat; [apply Qlt_le_weak, pow2_pos | ].
    unfold F2Q. apply Qmult_le_0_compat; [ | apply Qlt_le_weak, pow2_pos].
    change 0 with (inject_Z 0). rewrite <- Zle_Qle. lia. }
  destruct (Z.max_spec (d + e - prec) (emin prec emax))
    as [[Hlt Hmax] | [Hle Hmax]];
    rewrite Hmax in He1; subst e1.
  - change (emin prec emax - 1)%Z with (-1075)%Z.
    rewrite <- (Qplus_0_l (pow2 (-1075))) at 1.
    apply Qplus_le_compat; [exact Hm0 | apply Qle_refl].
  - rewrite <- (Qplus_0_r (pow2 (d + e - prec - 1))).
    apply Qplus_le_compat; [ | apply Qlt_le_weak, pow2_pos].
    replace (d + e - prec - 1)%Z with (-53 + ((d - 1) + e))%Z
      by (unfold prec; lia).
    rewrite pow2_add. apply Qmult_le_l; [apply pow2_pos | ].
    rewrite pow2_add. unfold F2Q. apply Qmult_le_r; [apply pow2_pos | ].
    rewrite <- pow2_inject by lia. rewrite <- Zle_Qle. exact Hlo.
Qed.

(** The first shift of [binary_round_aux], by cases. *)
Lemma shr_fexp_no_shift (m e : Z) :
  (fexp prec emax (Zdigits2 m + e) - e <= 0)%Z ->
  shr_fexp prec emax m e loc_Exact = (Build_shr_record m false false, e).
Proof.
  intros H. unfold shr_fexp, shr_record_of_loc, shr.
  destruct (fexp prec emax (Zdigits2 m + e) - e)%Z; try reflexivity. lia.
Qed.

Lemma shr_fexp_shift (m e : Z) (p : positive) :
  (fexp prec emax (Zdigits2 m + e) - e)%Z = Zpos p ->
  shr_fexp prec emax m e loc_Exact =
    (iter_pos shr_1 p (Build_shr_record m false false), (e + Zpos p)%Z).
Proof.
  intros H. unfold shr_fexp, shr_record_of_loc, shr. rewrite H. reflexivity.
Qed.

(** Rounding the exact value [m * 2^e]: the result is [round_result] of a
    mantissa and an exponent whose value is within [rnd_err] of the exact
    one. *)
Lemma binary_round_aux_exact_input (m : positive) (e : Z) :
  exists mr er,
    binary_round_aux prec emax false (Zpos m) e loc_Exact = round_result mr er /\
    (0 <= mr)%Z /\
    Qabs (F2Q mr er - F2Q (Zpos m) e)
      <= pow2 (-53) * F2Q (Zpos m) e + pow2 (-1075).
Proof.
  pose proof (digits2_pos_bounds m) as [Hlo Hhi].
  unfold binary_round_aux.
  set (d := Zpos (digits2_pos m)) in *.
  set (e1 := Z.max (d + e - prec) (emin prec emax)).
  assert (He1 : e1 = Z.max (d + e - prec) (emin prec emax)) by reflexivity.
  assert (Hfexp : fexp prec emax (Zdigits2 (Zpos m) + e) = e1) by reflexivity.
  assert (Hrhs : 0 <= pow2 (-53) * F2Q (Zpos m) e + pow2 (-1075)).
  { apply Qle_trans with (2 := half_ulp_bound m e He1).
    apply Qlt_le_weak, pow2_pos. }
  destruct (e1 - e)%Z as [ | p | p] eqn:En.
  - (* no shift *)
    rewrite (@shr_fexp_no_shift (Zpos m) e) by (rewrite Hfexp; lia).
    cbv beta iota zeta.
    change (round_nearest_even _ _) with (Zpos m).
    rewrite (@shr_fexp_no_shift (Zpos m) e) by (rewrite Hfexp; lia).
    exists (Zpos m), e. split; [reflexivity | split; [lia | ]].
    setoid_replace (F2Q (Zpos m) e - F2Q (Zpos m) e) with 0 by ring.
    exact Hrhs.
  - (* p bits shifted out *)
    rewrite (@shr_fexp_shift (Zpos m) e p) by (rewrite Hfexp; exact En).
    cbv beta iota zeta.
    assert (Hinv : shr_inv (Zpos m) (Zpos p)
                     (iter_pos shr_1 p (Build_shr_record (Zpos m) false false)))
      by (apply iter_shr_1_inv; lia).
    set (mrs := iter_pos shr_1 p (Build_shr_record (Zpos m) false false)) in *.
    pose proof (round_nearest_even_inv Hinv) as Hround. cbv zeta in Hround.
    set (mx := round_nearest_even (shr_m mrs) (loc_of_shr_record mrs)) in *.
    destruct Hround as (Hmx0 & Herr & Hmxb).
    destruct Hinv as [Hq (rem & Heq & Hrem & _)].
    assert (Hmx : (0 <= mx <= 2 ^ prec)%Z).
    { split; [exact Hmx0 | ].
      assert (Hlt : (shr_m mrs < 2 ^ prec)%Z).
      { destruct (Z_lt_ge_dec (shr_m mrs) (2 ^ prec)) as [H | H]; [exact H | exfalso].
        assert (Hpow : (2 ^ d <= 2 ^ prec * 2 ^ Zpos p)%Z).
        { rewrite <- Z.pow_add_r by (unfold prec; lia).
          apply Z.pow_le_mono_r; unfold prec in *; lia. }
        assert ((2 ^ prec * 2 ^ Zpos p <= shr_m mrs * 2 ^ Zpos p)%Z)
          by (apply Z.mul_le_mono_nonneg_r; lia).
        lia. }
      lia. }
    assert (Hemin : (emin prec emax <= e + Zpos p)%Z) by lia.
    destruct (shr_fexp_second Hmx Hemin) as (m2 & e2 & Hsecond & Hcases).
    rewrite Hsecond. cbn [shr_m].
    exists m2, e2. split; [reflexivity | ].
    assert (Hval : F2Q m2 e2 == F2Q (mx * 2 ^ Zpos p) e).
    { rewrite F2Q_shift by lia.
      destruct Hcases as [[-> ->] | (-> & -> & _)]; [reflexivity | ].
      unfold F2Q. rewrite inject_Z_mult.
      rewrite (pow2_add (e + Zpos p) 1). change (pow2 1) with 2.
      change (inject_Z 2) with 2. ring. }
    split; [destruct Hcases as [[-> _] | (_ & _ & H)]; lia | ].
    apply Qle_trans with (2 := half_ulp_bound m e He1).
    rewrite Hval. unfold F2Q.
    setoid_replace (inject_Z (mx * 2 ^ Zpos p) * pow2 e - inject_Z (Zpos m) * pow2 e)
      with (inject_Z (mx * 2 ^ Zpos p - Zpos m) * pow2 e)
      by (unfold Zminus; rewrite inject_Z_plus, inject_Z_opp; ring).
    rewrite Qabs_Qmult, (Qabs_pos (pow2 e)) by (apply Qlt_le_weak, pow2_pos).
    replace (e1 - 1)%Z with ((Zpos p - 1) + e)%Z by lia.
    rewrite pow2_add. apply Qmult_le_r; [apply pow2_pos | ].
    (* 2 |mx 2^p - m| <= 2^p *)
    apply Qmult_le_l with (z := 2); [reflexivity | ].
    rewrite <- pow2_double, <- pow2_inject by lia.
    change (Qabs (inject_Z (mx * 2 ^ Zpos p - Zpos m)))
      with (inject_Z (Z.abs (mx * 2 ^ Zpos p - Zpos m))).
    change 2 with (inject_Z 2) at 1.
    rewrite <- inject_Z_mult, <- Zle_Qle.
    replace (2 * Z.abs (mx * 2 ^ Zpos p - Zpos m))%Z
      with (Z.abs (2 * (mx * 2 ^ Zpos p) - 2 * Zpos m)) by lia.
    exact Herr.
  - (* no shift *)
    rewrite (@shr_fexp_no_shift (Zpos m) e) by (rewrite Hfexp; lia).
    cbv beta iota zeta.
    change (round_nearest_even _ _) with (Zpos m).
    rewrite (@shr_fexp_no_shift (Zpos m) e) by (rewrite Hfexp; lia).
    exists (Zpos m), e. split; [reflexivity | split; [lia | ]].
    setoid_replace (F2Q (Zpos m) e - F2Q (Zpos m) e) with 0 by ring.
    exact Hrhs.
Qed.

#[export] Instance rnd_err_proper : Proper (Qeq ==> Qeq) rnd_err.
Proof. intros a b H. unfold rnd_err. rewrite H. reflexivity. Qed.

Lemma F2Q_nonneg (m e : Z) : (0 <= m)%Z -> 0 <= F2Q m e.
Proof.
  intros H. unfold F2Q. apply Qmult_le_0_compat; [ | apply Qlt_le_weak, pow2_pos].
  change 0 with (inject_Z 0). rewrite <- Zle_Qle. exact H.
Qed.

Lemma Qval_nonneg (x : double) : nonneg_finite x = true -> 0 <= Qval x.
Proof.
  destruct x as [s | s | | [ | ] m e]; simpl; intros H; try discriminate;
    try apply Qle_refl.
  apply F2Q_nonneg. lia.
Qed.

Lemma rnd_err_nonneg (v : Q) : 0 <= v -> 0 <= rnd_err v.
Proof.
  intros H. unfold rnd_err.
  pose proof (pow2_pos (-53)). pose proof (pow2_pos (-1075)). nra.
Qed.

(** What rounding gives: an infinity, or a non-negative finite number. *)
Lemma round_result_cases (mr er : Z) :
  (0 <= mr)%Z ->
  round_result mr er = S754_infinity false \/
  (nonneg_finite (round_result mr er) = true /\
   Qval (round_result mr er) == F2Q mr er).
Proof.
  intros H. destruct mr as [ | p | p]; cbn [round_result]; try lia.
  - right. split; [reflexivity | ]. unfold F2Q. simpl. ring.
  - destruct (er <=? emax - prec)%Z; [right | left; reflexivity].
    split; reflexivity.
Qed.

Lemma binary_round_aux_cases (m : positive) (e : Z) :
  let z := binary_round_aux prec emax false (Zpos m) e loc_Exact in
  z = S754_infinity false \/
  (nonneg_finite z = true /\
   Qabs (Qval z - F2Q (Zpos m) e) <= rnd_err (F2Q (Zpos m) e)).
Proof.
  cbv zeta.
  destruct (binary_round_aux_exact_input m e) as (mr & er & Heq & Hmr & Herr).
  rewrite Heq. destruct (round_result_cases er Hmr) as [H | [Hfin Hval]].
  - left. exact H.
  - right. split; [exact Hfin | ]. rewrite Hval. exact Herr.
Qed.

(** The product of two non-negative finite numbers overflows or is within
    [rnd_err] of the exact product. *)
Lemma SFmul_cases (x y : double) :
  nonneg_finite x = true -> nonneg_finite y = true ->
  let z := SFmul prec emax x y in
  z = S754_infinity false \/
  (nonneg_finite z = true /\
   Qabs (Qval z - Qval x * Qval y) <= rnd_err (Qval x * Qval y)).
Proof.
  intros Hx Hy. cbv zeta.
  assert (Hzero : Qabs (0 - 0) <= rnd_err 0).
  { setoid_replace (0 - 0) with 0 by ring. apply rnd_err_nonneg. apply Qle_refl. }
  destruct x as [sx | sx | | [ | ] mx ex]; try discriminate;
    destruct y as [sy | sy | | [ | ] my ey]; try discriminate;
    cbn [SFmul Qval xorb nonneg_finite].
  - right. split; [reflexivity | ].
    setoid_replace (0 * 0) with 0 by ring. exact Hzero.
  - right. split; [reflexivity | ].
    setoid_replace (0 * F2Q (Zpos my) ey) with 0 by ring. exact Hzero.
  - right. split; [reflexivity | ].
    setoid_replace (F2Q (Zpos mx) ex * 0) with 0 by ring. exact Hzero.
  - destruct (binary_round_aux_cases (mx * my) (ex + ey)) as [H | [Hfin Herr]].
    + left. exact H.
    + right. split; [exact Hfin | ].
      assert (E : F2Q (Zpos (mx * my)) (ex + ey)
                  == F2Q (Zpos mx) ex * F2Q (Zpos my) ey).
      { unfold F2Q. rewrite Pos2Z.inj_mul, inject_Z_mult, pow2_add. ring. }
      rewrite <- E. exact Herr.
Qed.

(** Aligning a mantissa to a smaller exponent keeps the value. *)
Lemma iter_xO_value (m d : positive) :
  Zpos (Pos.iter xO m d) = (Zpos m * 2 ^ Zpos d)%Z.
Proof.
  change (Pos.iter xO m d) with (shift_pos d m).
  rewrite shift_pos_correct. change (Z.pow_pos 2 d) with (2 ^ Zpos d)%Z. ring.
Qed.

Lemma shl_align_value (m : positive) (e e' : Z) :
  F2Q (Zpos (fst (shl_align m e e'))) (snd (shl_align m e e')) == F2Q (Zpos m) e.
Proof.
  unfold shl_align. destruct (e' - e)%Z as [ | d | d] eqn:E; cbn [fst snd];
    try reflexivity.
  rewrite iter_xO_value, F2Q_shift by lia.
  replace (e' + Zpos d)%Z with e by lia. reflexivity.
Qed.

Lemma shl_align_min (m : positive) (e e' : Z) :
  (e' <= e)%Z -> snd (shl_align m e e') = e'.
Proof.
  intros H. unfold shl_align. destruct (e' - e)%Z eqn:E; cbn [snd]; lia.
Qed.

Lemma binary_round_cases (m : positive) (e : Z) :
  let z := binary_round prec emax false m e in
  z = S754_infinity false \/
  (nonneg_finite z = true /\
   Qabs (Qval z - F2Q (Zpos m) e) <= rnd_err (F2Q (Zpos m) e)).
Proof.
  cbv zeta. unfold binary_round.
  pose proof (shl_align_value m e (fexp prec emax (Zpos (digits2_pos m) + e)))
    as Hval.
  destruct (shl_align m e (fexp prec emax (Zpos (digits2_pos m) + e))) as [mz ez].
  cbn [fst snd] in Hval. rewrite <- Hval. apply binary_round_aux_cases.
Qed.

(** The sum of two non-negative finite numbers overflows or is within
    [rnd_err] of the exact sum. *)
Lemma SFadd_cases (x y : double) :
  nonneg_finite x = true -> nonneg_finite y = true ->
  let z := SFadd prec emax x y in
  z = S754_infinity false \/
  (nonneg_finite z = true /\
   Qabs (Qval z - (Qval x + Qval y)) <= rnd_err (Qval x + Qval y)).
Proof.
  intros Hx Hy. cbv zeta.
  assert (Hexact : forall v, 0 <= v -> Qabs (v - (v + 0)) <= rnd_err (v + 0)).
  { intros v Hv. setoid_replace (v - (v + 0)) with 0 by ring.
    setoid_replace (v + 0) with v by ring. apply rnd_err_nonneg. exact Hv. }
  assert (Hexact' : forall v, 0 <= v -> Qabs (v - (0 + v)) <= rnd_err (0 + v)).
  { intros v Hv. setoid_replace (v - (0 + v)) with 0 by ring.
    setoid_replace (0 + v) with v by ring. apply rnd_err_nonneg. exact Hv. }
  destruct x as [sx | sx | | [ | ] mx ex]; try discriminate;
    destruct y as [sy | sy | | [ | ] my ey]; try discriminate;
    cbn [SFadd Qval nonneg_finite].
  - right. split; [destruct sx, sy; reflexivity | ].
    destruct sx, sy; cbn [Qval]; apply Hexact; apply Qle_refl.
  - right. split; [reflexivity | ]. apply Hexact'. apply F2Q_nonneg. lia.
  - right. split; [reflexivity | ]. apply Hexact. apply F2Q_nonneg. lia.
  - cbn [cond_Zopp].
    pose proof (shl_align_value mx ex (Z.min ex ey)) as Hvx.
    pose proof (shl_align_value my ey (Z.min ex ey)) as Hvy.
    rewrite shl_align_min in Hvx, Hvy by lia.
    set (m1 := fst (shl_align mx ex (Z.min ex ey))) in *.
    set (m2 := fst (shl_align my ey (Z.min ex ey))) in *.
    change (Zpos m1 + Zpos m2)%Z with (Zpos (m1 + m2)). cbn [binary_normalize].
    assert (E : F2Q (Zpos (m1 + m2)) (Z.min ex ey)
                == F2Q (Zpos mx) ex + F2Q (Zpos my) ey).
    { rewrite <- Hvx, <- Hvy. unfold F2Q.
      rewrite Pos2Z.inj_add, inject_Z_plus. ring. }
    rewrite <- E. apply binary_round_cases.
Qed.

Lemma F2Q_pos (m : positive) (e : Z) : 0 < F2Q (Zpos m) e.
Proof.
  unfold F2Q. apply Qmult_lt_0_compat; [reflexivity | apply pow2_pos].
Qed.

(** So does the difference, the smaller number taken from the larger. *)
Lemma SFsub_cases (x y : double) :
  nonneg_finite x = true -> nonneg_finite y = true -> Qval y <= Qval x ->
  let z := SFsub prec emax x y in
  z = S754_infinity false \/
  (nonneg_finite z = true /\
   Qabs (Qval z - (Qval x - Qval y)) <= rnd_err (Qval x - Qval y)).
Proof.
  intros Hx Hy Hle. cbv zeta.
  assert (Hexact : forall v, 0 <= v -> Qabs (v - (v - 0)) <= rnd_err (v - 0)).
  { intros v Hv. setoid_replace (v - (v - 0)) with 0 by ring.
    setoid_replace (v - 0) with v by ring. apply rnd_err_nonneg. exact Hv. }
  destruct x as [sx | sx | | [ | ] mx ex]; try discriminate;
    destruct y as [sy | sy | | [ | ] my ey]; try discriminate;
    cbn [SFsub Qval nonneg_finite] in *.
  - right. split; [destruct sx, sy; reflexivity | ].
    destruct sx, sy; cbn [Qval]; apply Hexact; apply Qle_refl.
  - exfalso. pose proof (F2Q_pos my ey). lra.
  - right. split; [reflexivity | ]. apply Hexact. apply F2Q_nonneg. lia.
  - cbn [cond_Zopp].
    pose proof (shl_align_value mx ex (Z.min ex ey)) as Hvx.
    pose proof (shl_align_value my ey (Z.min ex ey)) as Hvy.
    rewrite shl_align_min in Hvx, Hvy by lia.
    set (m1 := fst (shl_align mx ex (Z.min ex ey))) in *.
    set (m2 := fst (shl_align my ey (Z.min ex ey))) in *.
    assert (E : F2Q (Zpos m1 - Zpos m2) (Z.min ex ey)
                == F2Q (Zpos mx) ex - F2Q (Zpos my) ey).
    { rewrite <- Hvx, <- Hvy. unfold F2Q, Zminus.
      rewrite inject_Z_plus, inject_Z_opp. ring. }
    assert (Hd : (0 <= Zpos m1 - Zpos m2)%Z).
    { destruct (Z_le_gt_dec 0 (Zpos m1 - Zpos m2)) as [H | H]; [exact H | exfalso].
      assert (F2Q (Zpos m1 - Zpos m2) (Z.min ex ey) < 0).
      { unfold F2Q. pose proof (pow2_pos (Z.min ex ey)) as Hp.
        assert (Hn : inject_Z (Zpos m1 - Zpos m2) < 0)
          by (change 0 with (inject_Z 0); rewrite <- Zlt_Qlt; lia).
        nra. }
      lra. }
    destruct (Zpos m1 - Zpos m2)%Z as [ | d | d] eqn:Ed; try lia;
      cbn [binary_normalize].
    + right. split; [reflexivity | ]. cbn [Qval]. rewrite <- E.
      assert (E0 : F2Q 0 (Z.min ex ey) == 0) by (unfold F2Q; apply Qmult_0_l).
      rewrite E0.
      setoid_replace (0 - 0) with 0 by ring. apply rnd_err_nonneg, Qle_refl.
    + rewrite <- E. apply binary_round_cases.
Qed.

(** The constants of the bound. *)
Lemma Qval_one : Qval d1 == 1.
Proof. reflexivity. Qed.

Lemma pow2_m53 : pow2 (-53) == 1 # 9007199254740992.
Proof. reflexivity. Qed.

(** The four roundings of [a * s + a * (1 - s)] together: [t] stands for
    the rounded [1 - s], [R] and [S] for the rounded products and [Sigma] for
    their rounded sum; [u] is [2^-53] and [eta] the absolute error of a
    subnormal result. *)
Lemma split_sum_arith (eta a s t R S Sigma : Q) :
  let u := 1 # 9007199254740992 in
  0 <= eta -> eta <= u ->
  0 <= a -> 0 <= s -> s <= 1 ->
  Qabs (t - (1 - s)) <= u * (1 - s) + eta ->
  Qabs (R - a * s) <= u * (a * s) + eta ->
  Qabs (S - a * t) <= u * (a * t) + eta ->
  Qabs (Sigma - (R + S)) <= u * (R + S) + eta ->
  Qabs (Sigma - a) <= 8 * u * a + 4 * eta.
Proof.
  intros u Heta Hetau Ha Hs0 Hs1 Ht HR HS HSigma.
  apply Qabs_Qle_condition in Ht, HR, HS, HSigma. apply Qabs_Qle_condition.
  set (p1 := a * s) in *.
  assert (Hp1 : 0 <= p1 <= a) by (unfold p1; split; nra).
  assert (Hp2 : a - p1 - (u * (a - p1) + u * a) <= a * t
                /\ a * t <= a - p1 + (u * (a - p1) + u * a)).
  { unfold p1. destruct Ht as [Ht1 Ht2]. unfold u in *. split; nra. }
  set (p2 := a * t) in *. unfold u in *.
  destruct Hp1, Hp2, HR, HS, HSigma. split; lra.
Qed.

(** A [double] between 0 and 1 has a value between 0 and 1. *)
Lemma unit_value (s : double) :
  valid_binary prec emax s = true ->
  SFleb (S754_zero false) s = true -> SFleb s d1 = true ->
  nonneg_finite s = true /\ Qval s <= 1.
Proof.
  intros Hvalid H0 H1.
  destruct s as [sg | sg | | sg m e]; try discriminate.
  - split; [reflexivity | ]. cbn [Qval]. lra.
  - destruct sg; discriminate.
  - destruct sg; [discriminate | ]. split; [reflexivity | ].
    cbn [Qval]. unfold SFleb, d1 in H1. cbn [SFcompare] in H1.
    cbn [valid_binary] in Hvalid. unfold bounded, canonical_mantissa, fexp in Hvalid.
    apply andb_true_iff in Hvalid as [Hcanon _]. apply Z.eqb_eq in Hcanon.
    pose proof (digits2_pos_bounds m) as [_ Hm].
    assert (Hd : (Zpos (digits2_pos m) <= 53)%Z) by (unfold prec in *; lia).
    assert (Hm53 : (Zpos m < 2 ^ 53)%Z).
    { apply Z.lt_le_trans with (1 := Hm). apply Z.pow_le_mono_r; lia. }
    destruct (Z.compare_spec e (-52)) as [He | He | He]; try discriminate.
    + (* same exponent as 1 *)
      subst e.
      assert (Hle : (Zpos m <= 4503599627370496)%Z).
      { change (Zpos m <= Zpos 4503599627370496)%Z. apply Pos2Z.pos_le_pos.
        unfold Pos.le, Pos.compare.
        destruct (Pos.compare_cont Eq m 4503599627370496); discriminate. }
      unfold F2Q. rewrite <- Qval_one. unfold d1, Qval, F2Q.
      apply Qmult_le_r; [apply pow2_pos | ]. rewrite <- Zle_Qle. exact Hle.
    + (* a smaller exponent *)
      unfold F2Q.
      apply Qle_trans with (inject_Z (2 ^ 53) * pow2 e).
      * apply Qmult_le_r; [apply pow2_pos | ]. rewrite <- Zle_Qle. lia.
      * rewrite pow2_inject by lia. rewrite <- pow2_add.
        change 1 with (pow2 0). apply pow2_le. lia.
Qed.

(** An infinite or NaN operand gives no finite result. *)
Lemma SFadd_finite (x y : double) :
  is_finite (SFadd prec emax x y) = true ->
  is_finite x = true /\ is_finite y = true.
Proof.
  destruct x as [sx | sx | | sx mx ex], y as [sy | sy | | sy my ey];
    cbn [SFadd is_finite]; try (intros; split; reflexivity); try discriminate.
  destruct sx, sy; discriminate.
Qed.

Lemma SFmul_finite (x y : double) :
  is_finite (SFmul prec emax x y) = true ->
  is_finite x = true /\ is_finite y = true.
Proof.
  destruct x as [sx | sx | | sx mx ex], y as [sy | sy | | sy my ey];
    cbn [SFmul is_finite]; try (intros; split; reflexivity); discriminate.
Qed.

Lemma not_finite_inf (x : double) :
  x = S754_infinity false -> is_finite x = true -> False.
Proof. intros ->. discriminate. Qed.

(** The two products of a split add up to the whole, up to rounding. *)
Lemma split_sum_error (x s : double) :
  nonneg_finite x = true -> nonneg_finite s = true -> Qval s <= 1 ->
  let R := SFmul prec emax x s in
  let S := SFmul prec emax x (SFsub prec emax d1 s) in
  is_finite (SFadd prec emax R S) = true ->
  Qabs (Qval (SFadd prec emax R S) - Qval x)
    <= pow2 (-50) * Qval x + pow2 (-1073).
Proof.
  intros Hx Hs Hs1 R S Hfin.
  destruct (SFadd_finite _ _ Hfin) as [HRfin HSfin].
  destruct (SFmul_finite _ _ HSfin) as [_ Htfin].
  assert (Hs1' : Qval s <= Qval d1) by (rewrite Qval_one; exact Hs1).
  destruct (SFsub_cases d1 s eq_refl Hs Hs1') as [Ht | [Ht Hterr]];
    [exfalso; exact (not_finite_inf Ht Htfin) | ].
  destruct (SFmul_cases x s Hx Hs) as [HR | [HR HRerr]];
    [exfalso; exact (not_finite_inf HR HRfin) | ].
  destruct (SFmul_cases x _ Hx Ht) as [HS | [HS HSerr]];
    [exfalso; exact (not_finite_inf HS HSfin) | ].
  destruct (SFadd_cases _ _ HR HS) as [HSig | [HSig HSigerr]];
    [exfalso; exact (not_finite_inf HSig Hfin) | ].
  fold R in HRerr, HSigerr. fold S in HSerr, HSigerr.
  unfold rnd_err in *. rewrite Qval_one in Hterr.
  assert (E50 : pow2 (-50) == 8 * pow2 (-53)) by reflexivity.
  assert (E1073 : pow2 (-1073) == 4 * pow2 (-1075)).
  { replace (-1073)%Z with (2 + -1075)%Z by lia. rewrite pow2_add. reflexivity. }
  rewrite E50, E1073. rewrite pow2_m53 in *.
  apply (@split_sum_arith (pow2 (-1075)) (Qval x) (Qval s)
           (Qval (SFsub prec emax d1 s)) (Qval R) (Qval S)).
  - apply Qlt_le_weak, pow2_pos.
  - rewrite <- pow2_m53. apply pow2_le. lia.
  - apply Qval_nonneg. exact Hx.
  - apply Qval_nonneg. exact Hs.
  - exact Hs1.
  - exact Hterr.
  - exact HRerr.
  - exact HSerr.
  - exact HSigerr.
Qed.

(** ** Running the reaction *)

Lemma runReaction_eq {T : Type} {ops : Scalar T} (this : ComplexReactor T) :
  runReaction this = (Return (products this), with_lastOutputs (products this) this).
Proof.
  destruct this as [a b c two s l]. destruct two; reflexivity.
Qed.

(** A second run on unchanged members gives the same result and state. *)
Lemma runReaction_idempotent {T : Type} {ops : Scalar T} (this : ComplexReactor T) :
  runReaction (snd (runReaction this)) = runReaction this.
Proof. rewrite !runReaction_eq. reflexivity. Qed.

(** Over the rationals [std::min] is [Qmin]. *)
Lemma std_min_Qmin (a b : Q) : (std_min a b == Qmin a b)%Q.
Proof.
  unfold std_min. simpl.
  destruct (Qle_bool a b) eqn:E; simpl.
  - apply Qle_bool_iff in E. symmetry. apply Q.min_l. exact E.
  - assert (H : (b <= a)%Q).
    { destruct (Qlt_le_dec b a) as [H | H].
      - apply Qlt_le_weak. exact H.
      - apply Qle_bool_iff in H. congruence. }
    symmetry. apply Q.min_r. exact H.
Qed.

(** C1, as stated, fails: [state_3_3_split_0_3] is within all four ranges
    and is reached by constructing with (1, true, 0.3) and setting the
    inputs to (3, 3); there [runReaction] returns R = 0.8999999999999999 and
    S = 2.0999999999999996, and the double sum R + S is 2.9999999999999996,
    one unit in the last place below min(a,b) * c = 3. *)
Lemma runReaction_sum_not_exact :
  (exists r, new_ComplexReactor fone true d0_3 = Return r /\
             state_3_3_split_0_3 = run [SetInputs d3 d3] r) /\
  (fzero <=? a_ state_3_3_split_0_3)%fl = true /\
  (fzero <=? b_ state_3_3_split_0_3)%fl = true /\
  in_unit (conversion_ state_3_3_split_0_3) = true /\
  in_unit (splitRatio_ state_3_3_split_0_3) = true /\
  twoOutputs_ state_3_3_split_0_3 = true /\
  exists R S : double,
    fst (runReaction state_3_3_split_0_3) = Return [R; S] /\
    R = S754_finite false 8106479329266892 (-53) /\
    S = S754_finite false 4728779608739020 (-51) /\
    (R + S)%fl = S754_finite false 6755399441055743 (-51) /\
    (std_min (a_ state_3_3_split_0_3) (b_ state_3_3_split_0_3)
       * conversion_ state_3_3_split_0_3)%fl = d3 /\
    (R + S)%fl <>
      (std_min (a_ state_3_3_split_0_3) (b_ state_3_3_split_0_3)
         * conversion_ state_3_3_split_0_3)%fl /\
    SFeqb (R + S)%fl
      (std_min (a_ state_3_3_split_0_3) (b_ state_3_3_split_0_3)
         * conversion_ state_3_3_split_0_3)%fl = false.
Proof.
  split; [eexists; split; reflexivity | ].
  repeat (split; [reflexivity | ]).
  do 2 eexists.
  repeat (split; [reflexivity | ]).
  split; [ | reflexivity].
  vm_compute. discriminate.
Qed.

(** A number that is at least 0 is not negative. *)
Lemma nonneg_of_leb (x : double) :
  SFleb d0 x = true -> is_finite x = true -> nonneg_finite x = true.
Proof.
  destruct x as [s | s | | [ | ] m e]; try discriminate; reflexivity.
Qed.

(** In a state within the ranges, the double sum of the two products, when
    it is finite, is within [2^-50 * reacted + 2^-1073] of the reacted
    amount. *)
Lemma runReaction_sum_error (this : ComplexReactor double) :
  (fzero <=? a_ this)%fl = true ->
  (fzero <=? b_ this)%fl = true ->
  in_unit (conversion_ this) = true ->
  in_unit (splitRatio_ this) = true ->
  is_double (splitRatio_ this) = true ->
  let reacted := (std_min (a_ this) (b_ this) * conversion_ this)%fl in
  let R := (reacted * splitRatio_ this)%fl in
  let S := (reacted * (fone - splitRatio_ this))%fl in
  is_finite (R + S)%fl = true ->
  Qabs (Qval (R + S)%fl - Qval reacted)
    <= pow2 (-50) * Qval reacted + pow2 (-1073).
Proof.
  intros Ha Hb Hc Hs Hvalid reacted R S Hfin.
  apply andb_true_iff in Hc as [Hc0 Hc1]. apply andb_true_iff in Hs as [Hs0 Hs1].
  destruct (unit_value _ Hvalid Hs0 Hs1) as [Hsn Hsv].
  destruct (SFadd_finite _ _ Hfin) as [HRfin _].
  destruct (SFmul_finite _ _ HRfin) as [Hreacted _].
  destruct (SFmul_finite _ _ Hreacted) as [Hmfin Hcfin].
  assert (Hm : nonneg_finite (std_min (a_ this) (b_ this)) = true).
  { apply nonneg_of_leb; [ | exact Hmfin].
    unfold std_min. destruct (b_ this <? a_ this)%fl; assumption. }
  assert (Hcn : nonneg_finite (conversion_ this) = true)
    by (apply nonneg_of_leb; assumption).
  assert (Hx : nonneg_finite reacted = true).
  { destruct (SFmul_cases _ _ Hm Hcn) as [Hinf | [Hx _]]; [ | exact Hx].
    exfalso. exact (not_finite_inf Hinf Hreacted). }
  exact (split_sum_error reacted (splitRatio_ this) Hx Hsn Hsv Hfin).
Qed.

(** C1 (amended): in a state with inputs [a, b >= 0] and conversion and
    split ratio in [[0,1]], [runReaction] returns [[min(a,b) * c]] in
    single-output mode and [[R; S]] with [R = reacted * s],
    [S = reacted * (1 - s)] and [reacted = min(a,b) * c] in two-output mode,
    every operation being the binary64 one, and stores the returned
    sequence in [lastOutputs_].  R + S equals [min(a,b) * c] up to rounding:
    when the binary64 sum R + S is finite, it is within
    [2^-50 * reacted + 2^-1073] of [reacted]; and the identity is exact when
    the same method runs over exact rational arithmetic. *)
Theorem runReaction_outputs (this : ComplexReactor double) :
  (fzero <=? a_ this)%fl = true ->
  (fzero <=? b_ this)%fl = true ->
  in_unit (conversion_ this) = true ->
  in_unit (splitRatio_ this) = true ->
  let limiting := std_min (a_ this) (b_ this) in
  let reacted := (limiting * conversion_ this)%fl in
  let R := (reacted * splitRatio_ this)%fl in
  let S := (reacted * (fone - splitRatio_ this))%fl in
  let out := if twoOutputs_ this then [R; S] else [reacted] in
  ((limiting = a_ this \/ limiting = b_ this) /\
   (limiting <=? a_ this)%fl = true /\ (limiting <=? b_ this)%fl = true) /\
  fst (runReaction this) = Return out /\
  lastOutputs_ (snd (runReaction this)) = out /\
  (is_double (splitRatio_ this) = true ->
   is_finite (R + S)%fl = true ->
   Qabs (Qval (R + S)%fl - Qval reacted)
     <= pow2 (-50) * Qval reacted + pow2 (-1073)) /\
  forall q : ComplexReactor Q,
    twoOutputs_ q = true ->
    exists Rq Sq : Q,
      fst (runReaction q) = Return [Rq; Sq] /\
      lastOutputs_ (snd (runReaction q)) = [Rq; Sq] /\
      (Rq + Sq == Qmin (a_ q) (b_ q) * conversion_ q)%Q.
Proof.
  intros Ha Hb Hc Hs. cbv zeta.
  split; [ | split; [ | split; [ | split]]].
  - apply std_min_is_min; eapply SFleb_not_nan_r; eassumption.
  - rewrite runReaction_eq. reflexivity.
  - rewrite runReaction_eq. reflexivity.
  - intros Hvalid Hfin. exact (runReaction_sum_error this Ha Hb Hc Hs Hvalid Hfin).
  - intros q Hq. rewrite runReaction_eq. unfold products. rewrite Hq.
    do 2 eexists. split; [reflexivity | split; [reflexivity | ]].
    simpl fmul. simpl fadd. simpl fsub. simpl fone.
    rewrite std_min_Qmin. ring.
Qed.

(** [runReaction_outputs] at [state_3_3_split_0_3]. *)
Lemma runReaction_outputs_witness :
  ((fzero <=? a_ state_3_3_split_0_3)%fl = true /\
   (fzero <=? b_ state_3_3_split_0_3)%fl = true /\
   in_unit (conversion_ state_3_3_split_0_3) = true /\
   in_unit (splitRatio_ state_3_3_split_0_3) = true) /\
  fst (runReaction state_3_3_split_0_3) =
    Return [S754_finite false 8106479329266892 (-53);
            S754_finite false 4728779608739020 (-51)] /\
  lastOutputs_ (snd (runReaction state_3_3_split_0_3)) =
    [S754_finite false 8106479329266892 (-53);
     S754_finite false 4728779608739020 (-51)] /\
  Qabs (Qval (S754_finite false 6755399441055743 (-51)) - Qval d3)
    <= pow2 (-50) * Qval d3 + pow2 (-1073).
Proof.
  destruct (runReaction_outputs state_3_3_split_0_3
              eq_refl eq_refl eq_refl eq_refl) as (_ & Hret & Hlast & Hsum & _).
  split; [repeat split | split; [exact Hret | split; [exact Hlast | ]]].
  exact (Hsum eq_refl eq_refl).
Defined.

(** An infinite input passes [setInputs]; with conversion 0 the product is
    then a NaN. *)
Example infinite_inputs :
  exists r, new_ComplexReactor fzero false d0_5 = Return r /\
    threw (fst (setInputs dInf dInf r)) = false /\
    fst (runReaction (after (SetInputs dInf dInf) r)) = Return [dNaN].
Proof. eexists. repeat split. Qed.

(** ** Frame lemmas, for any arithmetic *)

Section Frames.

Context {T : Type} {ops : Scalar T}.

Lemma setInputs_eq (a b : T) (this : ComplexReactor T) :
  setInputs a b this =
    if ((a <? fzero) || (b <? fzero))%fl
    then (Throw (invalid_argument "inputs must be non-negative"), this)
    else (Return tt,
          mkReactor a b (conversion_ this) (twoOutputs_ this)
                    (splitRatio_ this) (lastOutputs_ this)).
Proof. unfold_methods. split_tests; reflexivity. Qed.

Lemma setConversion_eq (v : T) (this : ComplexReactor T) :
  setConversion v this =
    (validateParams
       (mkReactor (a_ this) (b_ this) v (twoOutputs_ this)
                  (splitRatio_ this) (lastOutputs_ this)),
     mkReactor (a_ this) (b_ this) v (twoOutputs_ this)
               (splitRatio_ this) (lastOutputs_ this)).
Proof. unfold_methods. simpl. split_tests; reflexivity. Qed.

Lemma setSplitRatio_eq (v : T) (this : ComplexReactor T) :
  setSplitRatio v this =
    (validateParams
       (mkReactor (a_ this) (b_ this) (conversion_ this) (twoOutputs_ this)
                  v (lastOutputs_ this)),
     mkReactor (a_ this) (b_ this) (conversion_ this) (twoOutputs_ this)
               v (lastOutputs_ this)).
Proof. unfold_methods. simpl. split_tests; reflexivity. Qed.

Lemma validateParams_eq (this : ComplexReactor T) :
  validateParams this =
    if outside_unit (conversion_ this)
    then Throw (invalid_argument "conversion must be in [0,1]")
    else if outside_unit (splitRatio_ this)
    then Throw (invalid_argument "splitRatio must be in [0,1]")
    else Return tt.
Proof. reflexivity. Qed.

Lemma reset_eq (this : ComplexReactor T) :
  reset this =
    (Return tt,
     mkReactor fzero fzero (conversion_ this) (twoOutputs_ this)
               (splitRatio_ this) []).
Proof. reflexivity. Qed.

(** Every call but [runReaction] and [reset] leaves [lastOutputs_] alone,
    whether it returns or throws. *)
Lemma after_keeps_lastOutputs (c : call T) (this : ComplexReactor T) :
  is_run c = false -> is_reset c = false ->
  lastOutputs_ (after c this) = lastOutputs_ this.
Proof.
  destruct c; simpl; intros Hrun Hreset; try discriminate;
    unfold_methods; simpl; split_tests;
    try reflexivity.
  destruct (getLastOutput idx this); reflexivity.
Qed.

Lemma run_keeps_lastOutputs (calls : list (call T)) :
  forall this : ComplexReactor T,
    forallb (fun c => negb (is_run c || is_reset c)) calls = true ->
    lastOutputs_ (run calls this) = lastOutputs_ this.
Proof.
  induction calls as [ | c calls IH]; intros this H.
  - reflexivity.
  - simpl in H. apply andb_true_iff in H as [Hc H].
    apply negb_true_iff, orb_false_iff in Hc as [Hrun Hreset].
    change (run (c :: calls) this) with (run calls (after c this)).
    rewrite (IH _ H).
    apply after_keeps_lastOutputs; assumption.
Qed.

(** No call but [runReaction] puts anything into an empty [lastOutputs_]. *)
Lemma after_keeps_empty (c : call T) (this : ComplexReactor T) :
  is_run c = false -> lastOutputs_ this = [] -> lastOutputs_ (after c this) = [].
Proof.
  intros Hrun Hempty. destruct (is_reset c) eqn:Hreset.
  - destruct c; try discriminate. reflexivity.
  - rewrite after_keeps_lastOutputs; assumption.
Qed.

Lemma run_keeps_empty (calls : list (call T)) :
  forall this : ComplexReactor T,
    forallb (fun c => negb (is_run c)) calls = true ->
    lastOutputs_ this = [] -> lastOutputs_ (run calls this) = [].
Proof.
  induction calls as [ | c calls IH]; intros this H Hempty.
  - exact Hempty.
  - simpl in H. apply andb_true_iff in H as [Hc H]. apply negb_true_iff in Hc.
    change (run (c :: calls) this) with (run calls (after c this)).
    apply (IH _ H). apply after_keeps_empty; assumption.
Qed.

Lemma new_ComplexReactor_eq (conversion : T) (twoOutputs : bool) (splitRatio : T) :
  new_ComplexReactor conversion twoOutputs splitRatio =
    if outside_unit conversion
    then Throw (invalid_argument "conversion must be in [0,1]")
    else if outside_unit splitRatio
    then Throw (invalid_argument "splitRatio must be in [0,1]")
    else Return (mkReactor fzero fzero conversion twoOutputs splitRatio []).
Proof.
  unfold new_ComplexReactor. rewrite validateParams_eq. simpl.
  destruct (outside_unit conversion); [reflexivity | ].
  destruct (outside_unit splitRatio); reflexivity.
Qed.

Lemma getLastOutput_eq (idx : N) (this : ComplexReactor T) :
  getLastOutput idx this =
    if (N.of_nat (List.length (lastOutputs_ this)) <=? idx)%N
    then Throw (out_of_range "output index out of range")
    else Return (nth (N.to_nat idx) (lastOutputs_ this) fzero).
Proof. reflexivity. Qed.

End Frames.

(** ** What validation guarantees *)

Section Validation.

Context {T : Type} {ops : Scalar T}.

Lemma constructed_accepted (conversion : T) (twoOutputs : bool) (splitRatio : T)
    (this : ComplexReactor T) :
  (fzero <? fzero)%fl = false ->
  new_ComplexReactor conversion twoOutputs splitRatio = Return this ->
  accepted this = true.
Proof.
  intros H0. rewrite new_ComplexReactor_eq. unfold accepted.
  destruct (outside_unit conversion) eqn:Ec; [discriminate | ].
  destruct (outside_unit splitRatio) eqn:Es; [discriminate | ].
  intros [= <-]. simpl. rewrite Ec, Es, H0. reflexivity.
Qed.

(** A call that returns keeps the state accepted. *)
Lemma returned_call_accepted (c : call T) (this : ComplexReactor T) :
  (fzero <? fzero)%fl = false ->
  accepted this = true ->
  threw (fst (invoke c this)) = false ->
  accepted (after c this) = true.
Proof.
  intros H0. unfold accepted, after. destruct this as [a b cv two s l].
  cbn [a_ b_ conversion_ splitRatio_]. intros H.
  rewrite !andb_true_iff, !negb_true_iff in H. destruct H as [[[Hc Hs] Ha] Hb].
  destruct c as [a' b' | v | two' | v | | | idx]; cbn [invoke].
  - rewrite setInputs_eq. simpl.
    destruct (a' <? fzero)%fl eqn:Ea, (b' <? fzero)%fl eqn:Eb; simpl;
      try discriminate.
    rewrite Hc, Hs, Ea, Eb. reflexivity.
  - rewrite setConversion_eq, validateParams_eq. simpl.
    destruct (outside_unit v) eqn:Ev; simpl; [discriminate | ].
    rewrite Hs, Ha, Hb. reflexivity.
  - simpl. rewrite Hc, Hs, Ha, Hb. reflexivity.
  - rewrite setSplitRatio_eq, validateParams_eq. simpl.
    rewrite Hc.
    destruct (outside_unit v) eqn:Ev; simpl; [discriminate | ].
    rewrite Ha, Hb. reflexivity.
  - unfold bind. rewrite runReaction_eq. simpl.
    rewrite Hc, Hs, Ha, Hb. reflexivity.
  - simpl. rewrite Hc, Hs, H0. reflexivity.
  - unfold bind, call_const.
    destruct (getLastOutput idx _); simpl; rewrite Hc, Hs, Ha, Hb; reflexivity.
Qed.

(** As long as no call throws, the state stays accepted. *)
Lemma run_returned_accepted (calls : list (call T)) :
  forall this : ComplexReactor T,
    (fzero <? fzero)%fl = false ->
    accepted this = true ->
    all_return calls this = true ->
    accepted (run calls this) = true.
Proof.
  induction calls as [ | c calls IH]; intros this H0 Hacc Hret.
  - exact Hacc.
  - simpl in Hret. apply andb_true_iff in Hret as [Hc Hret].
    apply negb_true_iff in Hc.
    change (run (c :: calls) this) with (run calls (after c this)).
    apply IH; auto using returned_call_accepted.
Qed.

End Validation.

(** ** The invariant of the data model, and where it breaks *)

(** A reactor on which no call has thrown passes every range test. *)
Lemma returned_calls_keep_ranges (conversion : double) (twoOutputs : bool)
    (splitRatio : double) (this0 : ComplexReactor double)
    (calls : list (call double)) :
  new_ComplexReactor conversion twoOutputs splitRatio = Return this0 ->
  all_return calls this0 = true ->
  accepted (run calls this0) = true.
Proof.
  intros Hnew Hret. apply run_returned_accepted; [reflexivity | | exact Hret].
  exact (constructed_accepted conversion twoOutputs splitRatio eq_refl Hnew).
Qed.

(** Among numbers, accepted is in range: only a NaN is accepted without
    being in range. *)
Lemma accepted_in_range (this : ComplexReactor double) :
  a_ this <> S754_nan -> b_ this <> S754_nan ->
  conversion_ this <> S754_nan -> splitRatio_ this <> S754_nan ->
  accepted this = true -> in_range this = true.
Proof.
  destruct this as [a b c two s l]. unfold accepted, in_range, in_unit, outside_unit.
  cbn [a_ b_ conversion_ splitRatio_]. intros Ha Hb Hc Hs H.
  rewrite !andb_true_iff, !negb_true_iff, !orb_false_iff in H.
  destruct H as [[[[Hc0 Hc1] [Hs0 Hs1]] Ha0] Hb0].
  assert (H0 : (fzero : double) <> S754_nan) by discriminate.
  assert (H1 : (fone : double) <> S754_nan) by discriminate.
  assert (Ec0 : (fzero <=? c)%fl = true) by exact (SFltb_false_leb H0 Hc Hc0).
  assert (Ec1 : (c <=? fone)%fl = true) by exact (SFltb_false_leb Hc H1 Hc1).
  assert (Es0 : (fzero <=? s)%fl = true) by exact (SFltb_false_leb H0 Hs Hs0).
  assert (Es1 : (s <=? fone)%fl = true) by exact (SFltb_false_leb Hs H1 Hs1).
  assert (Ea0 : (fzero <=? a)%fl = true) by exact (SFltb_false_leb H0 Ha Ha0).
  assert (Eb0 : (fzero <=? b)%fl = true) by exact (SFltb_false_leb H0 Hb Hb0).
  rewrite Ec0, Ec1, Es0, Es1, Ea0, Eb0. reflexivity.
Qed.

(** A NaN passes validation: no comparison with a NaN is true. *)
Lemma nan_is_accepted :
  new_ComplexReactor dNaN false dNaN =
    Return (mkReactor fzero fzero dNaN false dNaN []) /\
  setInputs dNaN dNaN (mkReactor fzero fzero dNaN false dNaN []) =
    (Return tt, mkReactor dNaN dNaN dNaN false dNaN []).
Proof. split; reflexivity. Qed.

(** C2 (the code breaks it): a default reactor is in range; the call
    [setConversion(2.0)] throws [invalid_argument], but the object it
    leaves has [conversion_ = 2.0]: a reachable state out of range, in which
    inputs (1, 1) then yield the product 2. *)
Theorem setConversion_breaks_invariant :
  exists r : ComplexReactor double,
    default_ComplexReactor = Return r /\
    in_range r = true /\
    setConversion d2 r =
      (Throw (invalid_argument "conversion must be in [0,1]"),
       mkReactor fzero fzero d2 false d0_5 []) /\
    reachable (after (SetConversion d2) r) /\
    in_unit (conversion_ (after (SetConversion d2) r)) = false /\
    in_range (after (SetConversion d2) r) = false /\
    fst (runReaction (run [SetConversion d2; SetInputs fone fone] r)) = Return [d2].
Proof.
  eexists. split; [reflexivity | ].
  repeat (split; [reflexivity | ]).
  split; [ | repeat split].
  exists d0_5, false, d0_5. eexists. exists [SetConversion d2].
  split; reflexivity.
Qed.

(** ** The setters *)

(** C3: for [v] below 0 or above 1, [setConversion(v)] throws
    [invalid_argument] and leaves [v] in [conversion_]; [setSplitRatio(v)]
    throws [invalid_argument] and leaves [v] in [splitRatio_].  Nothing else
    changes. *)
Theorem setters_store_rejected_value (this : ComplexReactor double) (v : double) :
  outside_unit v = true ->
  setConversion v this =
    (Throw (invalid_argument "conversion must be in [0,1]"),
     mkReactor (a_ this) (b_ this) v (twoOutputs_ this)
               (splitRatio_ this) (lastOutputs_ this)) /\
  (exists what, fst (setSplitRatio v this) = Throw (invalid_argument what)) /\
  snd (setSplitRatio v this) =
    mkReactor (a_ this) (b_ this) (conversion_ this) (twoOutputs_ this)
              v (lastOutputs_ this).
Proof.
  intros Hv. rewrite setConversion_eq, setSplitRatio_eq, !validateParams_eq.
  cbn [conversion_ splitRatio_ fst snd]. rewrite Hv.
  split; [reflexivity | split; [ | reflexivity]].
  destruct (outside_unit (conversion_ this)); eexists; reflexivity.
Qed.

(** [setters_store_rejected_value] at a default reactor and 2.0. *)
Lemma setters_store_rejected_value_witness :
  outside_unit d2 = true /\
  setConversion d2 (mkReactor fzero fzero d0_5 false d0_5 []) =
    (Throw (invalid_argument "conversion must be in [0,1]"),
     mkReactor fzero fzero d2 false d0_5 []) /\
  snd (setSplitRatio d2 (mkReactor fzero fzero d0_5 false d0_5 [])) =
    mkReactor fzero fzero d0_5 false d2 [].
Proof.
  destruct (setters_store_rejected_value
              (mkReactor fzero fzero d0_5 false d0_5 []) d2 eq_refl)
    as (Hconv & _ & Hsplit).
  split; [reflexivity | split; [exact Hconv | exact Hsplit]].
Defined.

(** C4: [setInputs(a, b)] throws [invalid_argument] exactly when [a < 0] or
    [b < 0]; when it throws the object is unchanged, and when it returns
    [a_ = a], [b_ = b] and the other members are unchanged. *)
Theorem setInputs_spec (this : ComplexReactor double) (a b : double) :
  (threw (fst (setInputs a b this)) = true <->
   (a <? fzero)%fl = true \/ (b <? fzero)%fl = true) /\
  (threw (fst (setInputs a b this)) = true ->
   setInputs a b this =
     (Throw (invalid_argument "inputs must be non-negative"), this)) /\
  (threw (fst (setInputs a b this)) = false ->
   setInputs a b this =
     (Return tt,
      mkReactor a b (conversion_ this) (twoOutputs_ this)
                (splitRatio_ this) (lastOutputs_ this))).
Proof.
  rewrite setInputs_eq.
  destruct (a <? fzero)%fl, (b <? fzero)%fl; simpl;
    repeat split; intros; auto; try discriminate;
    match goal with H : _ \/ _ |- _ => destruct H; discriminate end.
Qed.

(** ** Reading the last result *)

(** C5: [getLastOutput(idx)] throws [out_of_range] exactly when [idx] is at
    least the number of stored outputs, and otherwise returns the output at
    [idx]; after [reset], and on a constructed reactor on which
    [runReaction] has not been called, [getLastOutput(0)] throws. *)
Theorem getLastOutput_spec (this : ComplexReactor double) (idx : N) :
  (getLastOutput idx this = Throw (out_of_range "output index out of range") <->
   (N.of_nat (List.length (lastOutputs_ this)) <= idx)%N) /\
  (threw (getLastOutput idx this) = true <->
   (N.of_nat (List.length (lastOutputs_ this)) <= idx)%N) /\
  ((idx < N.of_nat (List.length (lastOutputs_ this)))%N ->
   exists v, nth_error (lastOutputs_ this) (N.to_nat idx) = Some v /\
             getLastOutput idx this = Return v) /\
  getLastOutput 0 (snd (reset this)) =
    Throw (out_of_range "output index out of range") /\
  (forall conversion twoOutputs splitRatio this0 calls,
     new_ComplexReactor conversion twoOutputs splitRatio = Return this0 ->
     forallb (fun c => negb (is_run c)) calls = true ->
     getLastOutput 0 (run calls this0) =
       Throw (out_of_range "output index out of range")).
Proof.
  rewrite getLastOutput_eq.
  split; [ | split; [ | split; [ | split]]].
  - destruct (N.leb_spec (N.of_nat (List.length (lastOutputs_ this))) idx);
      split; intros; auto; try discriminate; lia.
  - destruct (N.leb_spec (N.of_nat (List.length (lastOutputs_ this))) idx);
      split; simpl; intros; auto; try discriminate; lia.
  - intros Hlt.
    destruct (N.leb_spec (N.of_nat (List.length (lastOutputs_ this))) idx); [lia | ].
    exists (nth (N.to_nat idx) (lastOutputs_ this) fzero). split; [ | reflexivity].
    apply nth_error_nth'. lia.
  - reflexivity.
  - intros conversion twoOutputs splitRatio this0 calls Hnew Hcalls.
    rewrite getLastOutput_eq. rewrite (run_keeps_empty calls this0 Hcalls).
    + reflexivity.
    + rewrite new_ComplexReactor_eq in Hnew.
      destruct (outside_unit conversion); [discriminate | ].
      destruct (outside_unit splitRatio); [discriminate | ].
      injection Hnew as <-. reflexivity.
Qed.

(** ** Construction *)

(** C6: construction throws [invalid_argument] exactly when the conversion
    or the split ratio is below 0 or above 1, and never when both lie in
    [[0,1]]; for numbers, below 0 or above 1 is the same as not in [[0,1]].
    The constructed reactor has both inputs 0, the given parameters and no
    outputs. *)
Theorem new_ComplexReactor_spec (conversion : double) (twoOutputs : bool)
    (splitRatio : double) :
  (threw (new_ComplexReactor conversion twoOutputs splitRatio) = true <->
   outside_unit conversion = true \/ outside_unit splitRatio = true) /\
  (threw (new_ComplexReactor conversion twoOutputs splitRatio) = true ->
   exists what,
     new_ComplexReactor conversion twoOutputs splitRatio =
       Throw (invalid_argument what)) /\
  (in_unit conversion = true -> in_unit splitRatio = true ->
   threw (new_ComplexReactor conversion twoOutputs splitRatio) = false) /\
  (conversion <> S754_nan -> splitRatio <> S754_nan ->
   (threw (new_ComplexReactor conversion twoOutputs splitRatio) = true <->
    in_unit conversion = false \/ in_unit splitRatio = false)) /\
  (threw (new_ComplexReactor conversion twoOutputs splitRatio) = false ->
   new_ComplexReactor conversion twoOutputs splitRatio =
     Return (mkReactor fzero fzero conversion twoOutputs splitRatio [])).
Proof.
  rewrite new_ComplexReactor_eq.
  split; [ | split; [ | split; [ | split]]].
  - destruct (outside_unit conversion), (outside_unit splitRatio); simpl;
      split; intros; auto; try discriminate;
      match goal with H : _ \/ _ |- _ => destruct H; discriminate end.
  - destruct (outside_unit conversion), (outside_unit splitRatio); simpl;
      intros; try discriminate; eexists; reflexivity.
  - intros Hc Hs.
    rewrite (in_unit_not_outside _ Hc), (in_unit_not_outside _ Hs). reflexivity.
  - intros Hc Hs.
    rewrite (outside_unit_complement Hc), (outside_unit_complement Hs).
    destruct (in_unit conversion), (in_unit splitRatio); simpl;
      split; intros; auto; try discriminate;
      match goal with H : _ \/ _ |- _ => destruct H; discriminate end.
  - destruct (outside_unit conversion), (outside_unit splitRatio); simpl;
      intros; try discriminate; reflexivity.
Qed.

(** ** Frames *)

(** C7: [runReaction] returns in every state and changes no member but
    [lastOutputs_]. *)
Theorem runReaction_frame (this : ComplexReactor double) :
  exists out : list double,
    runReaction this =
      (Return out,
       mkReactor (a_ this) (b_ this) (conversion_ this) (twoOutputs_ this)
                 (splitRatio_ this) out).
Proof. exists (products this). apply runReaction_eq. Qed.

(** C8: after [runReaction], [lastOutputs_] holds one value in
    single-output mode and two in two-output mode; [getLastOutput(0)] then
    returns, and [getLastOutput(1)] returns exactly in two-output mode. *)
Theorem runReaction_then_getLastOutput (this : ComplexReactor double) :
  threw (fst (runReaction this)) = false /\
  List.length (lastOutputs_ (snd (runReaction this))) =
    (if twoOutputs_ this then 2 else 1)%nat /\
  threw (getLastOutput 0 (snd (runReaction this))) = false /\
  (threw (getLastOutput 1 (snd (runReaction this))) = false <->
   twoOutputs_ this = true) /\
  (forall idx : N,
     threw (getLastOutput idx (snd (runReaction this))) = false <->
     (idx < (if twoOutputs_ this then 2 else 1))%N) /\
  (forall out, fst (runReaction this) = Return out ->
     getLastOutput 0 (snd (runReaction this)) = Return (nth 0 out fzero) /\
     (twoOutputs_ this = true ->
      getLastOutput 1 (snd (runReaction this)) = Return (nth 1 out fzero))).
Proof.
  rewrite runReaction_eq. unfold products, with_lastOutputs.
  cbn [fst snd]. destruct (twoOutputs_ this); rewrite ?getLastOutput_eq;
    cbn [lastOutputs_ List.length threw];
    (split; [reflexivity | ]); (split; [reflexivity | ]);
    (split; [reflexivity | ]); (split; [ | split]).
  - split; reflexivity.
  - intros idx. rewrite getLastOutput_eq. cbn [lastOutputs_ List.length].
    destruct (N.leb_spec (N.of_nat 2) idx); simpl; split; intros;
      auto; try discriminate; lia.
  - intros out [= <-]. split; reflexivity.
  - split; simpl; intros; discriminate.
  - intros idx. rewrite getLastOutput_eq. cbn [lastOutputs_ List.length].
    destruct (N.leb_spec (N.of_nat 1) idx); simpl; split; intros;
      auto; try discriminate; lia.
  - intros out [= <-]. split; [reflexivity | discriminate].
Qed.

(** C9: no setter changes [lastOutputs_], whether it returns or throws,
    and through any sequence of calls other than [runReaction] and [reset]
    every [getLastOutput(idx)] gives what it gave before. *)
Theorem setters_keep_lastOutputs (this : ComplexReactor double)
    (calls : list (call double)) :
  forallb (fun c => negb (is_run c || is_reset c)) calls = true ->
  (forall a b, lastOutputs_ (snd (setInputs a b this)) = lastOutputs_ this) /\
  (forall v, lastOutputs_ (snd (setConversion v this)) = lastOutputs_ this) /\
  (forall two, lastOutputs_ (snd (setTwoOutputs two this)) = lastOutputs_ this) /\
  (forall v, lastOutputs_ (snd (setSplitRatio v this)) = lastOutputs_ this) /\
  lastOutputs_ (run calls this) = lastOutputs_ this /\
  (forall idx, getLastOutput idx (run calls this) = getLastOutput idx this).
Proof.
  intros Hcalls.
  split; [ | split; [ | split; [ | split; [ | split]]]].
  - intros a b. exact (after_keeps_lastOutputs (SetInputs a b) this eq_refl eq_refl).
  - intros v. exact (after_keeps_lastOutputs (SetConversion v) this eq_refl eq_refl).
  - intros two. exact (after_keeps_lastOutputs (SetTwoOutputs two) this eq_refl eq_refl).
  - intros v. exact (after_keeps_lastOutputs (SetSplitRatio v) this eq_refl eq_refl).
  - apply run_keeps_lastOutputs. exact Hcalls.
  - intros idx. rewrite !getLastOutput_eq.
    rewrite (run_keeps_lastOutputs calls this Hcalls). reflexivity.
Qed.

(** [setters_keep_lastOutputs] after a run of [state_3_3_split_0_3], through
    setters that return and setters that throw. *)
Lemma setters_keep_lastOutputs_witness :
  let calls := [SetInputs dm0_1 d2; SetConversion d2; SetTwoOutputs false;
                SetSplitRatio d0_7; GetLastOutput 5; SetInputs fone d2] in
  let this := snd (runReaction state_3_3_split_0_3) in
  forallb (fun c => negb (is_run c || is_reset c)) calls = true /\
  lastOutputs_ (run calls this) = lastOutputs_ this /\
  getLastOutput 1 (run calls this) =
    Return (S754_finite false 4728779608739020 (-51)).
Proof.
  cbv zeta.
  destruct (setters_keep_lastOutputs (snd (runReaction state_3_3_split_0_3))
              [SetInputs dm0_1 d2; SetConversion d2; SetTwoOutputs false;
               SetSplitRatio d0_7; GetLastOutput 5; SetInputs fone d2] eq_refl)
    as (_ & _ & _ & _ & Hlast & Hget).
  split; [reflexivity | split; [exact Hlast | ]]. rewrite Hget. reflexivity.
Defined.

(** C10: [reset] returns in every state, sets both inputs to 0, empties
    [lastOutputs_] and leaves the conversion, the mode and the split ratio
    as they were. *)
Theorem reset_spec (this : ComplexReactor double) :
  reset this =
    (Return tt,
     mkReactor fzero fzero (conversion_ this) (twoOutputs_ this)
               (splitRatio_ this) []).
Proof. apply reset_eq. Qed.

(** * Further properties of the class *)

(** ** More on rounding *)

(** The lemmas above bound the error of one rounding.  Those of this part
    say what the rounded number is: a [double] again, at most any [double]
    the exact value is at most, and the exact value itself when that is a
    [double]. *)

Section Mantissas.

Local Open Scope Z_scope.

(** A positive number with [2^(k-1) <= m < 2^k] has [k] bits. *)
Lemma Zdigits2_unique (m k : Z) :
  0 < m -> 2 ^ (k - 1) <= m < 2 ^ k -> Zdigits2 m = k.
Proof.
  intros Hm [Hlo Hhi]. destruct (Zdigits2_bounds Hm) as [Hlo' Hhi'].
  assert (Hk : 0 <= k).
  { destruct (Z_le_gt_dec 0 k) as [H | H]; [exact H | exfalso].
    rewrite Z.pow_neg_r in Hhi by lia. lia. }
  assert (Hd : 0 <= Zdigits2 m).
  { destruct (Z_le_gt_dec 0 (Zdigits2 m)) as [H | H]; [exact H | exfalso].
    rewrite Z.pow_neg_r in Hhi' by lia. lia. }
  destruct (Z.lt_trichotomy (Zdigits2 m) k) as [H | [H | H]];
    [exfalso | exact H | exfalso].
  - assert (2 ^ Zdigits2 m <= 2 ^ (k - 1)) by (apply Z.pow_le_mono_r; lia). lia.
  - assert (2 ^ k <= 2 ^ (Zdigits2 m - 1)) by (apply Z.pow_le_mono_r; lia). lia.
Qed.

(** The second shift of [binary_round_aux]: none below [2^53], one bit at
    [2^53]. *)
Lemma shr_fexp_second_small (mx e1 : Z) :
  0 <= mx < 2 ^ prec -> emin prec emax <= e1 ->
  shr_fexp prec emax mx e1 loc_Exact = (Build_shr_record mx false false, e1).
Proof.
  intros Hmx He1. apply shr_fexp_no_shift. unfold fexp.
  destruct (Z.eq_dec mx 0) as [-> | Hne].
  - cbn [Zdigits2]. unfold prec in *. lia.
  - assert (Hd : Zdigits2 mx <= prec) by (apply Zdigits2_le; unfold prec in *; lia).
    lia.
Qed.

Lemma shr_fexp_second_carry (e1 : Z) :
  emin prec emax <= e1 ->
  shr_fexp prec emax (2 ^ prec) e1 loc_Exact =
    (Build_shr_record (2 ^ (prec - 1)) false false, e1 + 1).
Proof.
  intros He1. unfold shr_fexp, shr_record_of_loc, fexp.
  change (Zdigits2 (2 ^ prec)) with (prec + 1).
  replace (Z.max (prec + 1 + e1 - prec) (emin prec emax) - e1) with 1 by lia.
  reflexivity.
Qed.

(** Rounding to nearest moves to an adjacent integer: the rounded mantissa
    is less than one unit away from the exact quotient. *)
Lemma round_nearest_even_adjacent (m k : Z) (mrs : shr_record) :
  0 <= k -> shr_inv m k mrs ->
  Z.abs (m - round_nearest_even (shr_m mrs) (loc_of_shr_record mrs) * 2 ^ k) < 2 ^ k.
Proof.
  intros Hk [Hm (rem & Heq & Hrem & Hr & Hs)]. destruct mrs as [m' r s].
  cbn [shr_m shr_r shr_s] in *.
  assert (Hp : 0 < 2 ^ k) by lia.
  destruct r, s; cbn [shr_m loc_of_shr_record round_nearest_even].
  - assert (2 ^ k <= 2 * rem) by (apply Hr; reflexivity).
    rewrite Heq. apply Z.abs_lt. lia.
  - assert (H1 : 2 ^ k <= 2 * rem) by (apply Hr; reflexivity).
    rewrite Heq. destruct (Z.even m'); apply Z.abs_lt; lia.
  - rewrite Heq. apply Z.abs_lt. lia.
  - rewrite Heq. apply Z.abs_lt. lia.
Qed.

End Mantissas.

(** Rounding [m * 2^e] when [e] is at most the exponent [e1] the result
    takes: the mantissa [mx] of the result is [m / 2^(e1 - e)] moved by
    less than one unit, and a mantissa of [2^53] is renormalised. *)
Lemma binary_round_aux_fine (m : positive) (e : Z) :
  let e1 := fexp prec emax (Zpos (digits2_pos m) + e) in
  (e <= e1)%Z ->
  exists mx : Z,
    (0 <= mx <= 2 ^ prec)%Z /\
    (Z.abs (Zpos m - mx * 2 ^ (e1 - e)) < 2 ^ (e1 - e))%Z /\
    binary_round_aux prec emax false (Zpos m) e loc_Exact =
      if (mx =? 2 ^ prec)%Z then round_result (2 ^ (prec - 1)) (e1 + 1)
      else round_result mx e1.
Proof.
  intros e1 Hfine.
  pose proof (digits2_pos_bounds m) as [Hlo Hhi].
  unfold binary_round_aux.
  set (d := Zpos (digits2_pos m)) in *.
  assert (He1 : e1 = Z.max (d + e - prec) (emin prec emax)) by reflexivity.
  assert (Hfexp : fexp prec emax (Zdigits2 (Zpos m) + e) = e1) by reflexivity.
  destruct (e1 - e)%Z as [ | p | p] eqn:En; [ | | lia].
  - (* no shift *)
    rewrite (@shr_fexp_no_shift (Zpos m) e) by (rewrite Hfexp; lia).
    cbv beta iota zeta.
    change (round_nearest_even _ _) with (Zpos m).
    rewrite (@shr_fexp_no_shift (Zpos m) e) by (rewrite Hfexp; lia).
    assert (Hm : (Zpos m < 2 ^ prec)%Z).
    { apply Z.lt_le_trans with (1 := Hhi). apply Z.pow_le_mono_r; lia. }
    exists (Zpos m). split; [lia | split].
    + rewrite Z.pow_0_r, Z.mul_1_r, Z.sub_diag. simpl. lia.
    + destruct (Z.eqb_spec (Zpos m) (2 ^ prec)) as [E | _]; [lia | ].
      replace e1 with e by lia. reflexivity.
  - (* p bits shifted out *)
    rewrite (@shr_fexp_shift (Zpos m) e p) by (rewrite Hfexp; exact En).
    cbv beta iota zeta.
    assert (Hinv : shr_inv (Zpos m) (Zpos p)
                     (iter_pos shr_1 p (Build_shr_record (Zpos m) false false)))
      by (apply iter_shr_1_inv; lia).
    set (mrs := iter_pos shr_1 p (Build_shr_record (Zpos m) false false)) in *.
    pose proof (round_nearest_even_inv Hinv) as Hround. cbv zeta in Hround.
    assert (Hadj := @round_nearest_even_adjacent (Zpos m) (Zpos p) mrs
                      ltac:(lia) Hinv).
    set (mx := round_nearest_even (shr_m mrs) (loc_of_shr_record mrs)) in *.
    destruct Hround as (Hmx0 & _ & _).
    assert (Hmx : (0 <= mx <= 2 ^ prec)%Z).
    { split; [exact Hmx0 | ].
      apply Z.abs_lt in Hadj.
      assert (Hpow : (2 ^ d <= 2 ^ prec * 2 ^ Zpos p)%Z).
      { rewrite <- Z.pow_add_r by (unfold prec; lia).
        apply Z.pow_le_mono_r; unfold prec in *; lia. }
      assert (Hp : (0 < 2 ^ Zpos p)%Z) by lia.
      destruct (Z_le_gt_dec mx (2 ^ prec)) as [H | H]; [exact H | exfalso].
      assert (((2 ^ prec + 1) * 2 ^ Zpos p <= mx * 2 ^ Zpos p)%Z)
        by (apply Z.mul_le_mono_nonneg_r; lia).
      lia. }
    assert (Hemin : (emin prec emax <= e + Zpos p)%Z) by lia.
    exists mx. split; [exact Hmx | split; [exact Hadj | ]].
    replace (e + Zpos p)%Z with e1 in * by lia.
    destruct (Z.eqb_spec mx (2 ^ prec)) as [E | E].
    + rewrite E, shr_fexp_second_carry by exact Hemin. reflexivity.
    + rewrite shr_fexp_second_small by lia. reflexivity.
Qed.

Lemma pow2_lt_inv (a b : Z) : pow2 a < pow2 b -> (a < b)%Z.
Proof.
  intros H. destruct (Z_lt_ge_dec a b) as [Hlt | Hge]; [exact Hlt | exfalso].
  assert (pow2 b <= pow2 a) by (apply pow2_le; lia). lra.
Qed.

(** Comparing two values through their mantissas. *)
Lemma F2Q_le_iff (m m' e k : Z) :
  (0 <= k)%Z -> F2Q m e <= F2Q m' (e + k) <-> (m <= m' * 2 ^ k)%Z.
Proof.
  intros Hk. rewrite <- F2Q_shift by exact Hk. unfold F2Q.
  rewrite Qmult_le_r by apply pow2_pos. rewrite <- Zle_Qle. reflexivity.
Qed.

(** A mantissa of [d] bits: the value lies in [[2^(d-1+e), 2^(d+e))]. *)
Lemma F2Q_bounds (m : positive) (e : Z) :
  pow2 (Zpos (digits2_pos m) - 1 + e) <= F2Q (Zpos m) e /\
  F2Q (Zpos m) e < pow2 (Zpos (digits2_pos m) + e).
Proof.
  pose proof (digits2_pos_bounds m) as [Hlo Hhi].
  rewrite !pow2_add. unfold F2Q. split.
  - apply Qmult_le_r; [apply pow2_pos | ].
    rewrite <- pow2_inject by lia. rewrite <- Zle_Qle. exact Hlo.
  - apply Qmult_lt_r; [apply pow2_pos | ].
    rewrite <- pow2_inject by lia. rewrite <- Zlt_Qlt. exact Hhi.
Qed.

(** What [is_double] says of a mantissa and an exponent. *)
Lemma is_double_finite (s : bool) (m : positive) (e : Z) :
  is_double (S754_finite s m e) = true <->
  (e = Z.max (Zpos (digits2_pos m) + e - prec) (emin prec emax) /\
   e <= emax - prec)%Z.
Proof.
  unfold is_double. cbn [valid_binary]. unfold bounded, canonical_mantissa, fexp.
  rewrite andb_true_iff, Z.eqb_eq, Z.leb_le. split; intros [H1 H2]; split; auto.
Qed.

Lemma is_double_round_result (mr er : Z) :
  (0 < mr -> er = Z.max (Zdigits2 mr + er - prec) (emin prec emax))%Z ->
  is_double (round_result mr er) = true.
Proof.
  intros H. destruct mr as [ | p | p]; cbn [round_result]; try reflexivity.
  destruct (er <=? emax - prec)%Z eqn:E; [ | reflexivity].
  apply is_double_finite. split; [apply H; lia | apply Z.leb_le; exact E].
Qed.

(** The result of rounding is a [double]. *)
Lemma binary_round_aux_is_double (m : positive) (e : Z) :
  (e <= fexp prec emax (Zpos (digits2_pos m) + e))%Z ->
  is_double (binary_round_aux prec emax false (Zpos m) e loc_Exact) = true.
Proof.
  intros Hfine.
  destruct (binary_round_aux_fine m Hfine) as (mx & Hmx & Hadj & ->).
  pose proof (digits2_pos_bounds m) as [Hlo Hhi].
  unfold fexp in *.
  set (d := Zpos (digits2_pos m)) in *.
  set (e1 := Z.max (d + e - prec) (emin prec emax)) in *.
  destruct (Z.eqb_spec mx (2 ^ prec)) as [E | E];
    apply is_double_round_result; intros Hpos.
  - change (Zdigits2 (2 ^ (prec - 1))) with prec. lia.
  - assert (Hd : (Zdigits2 mx <= prec)%Z)
      by (apply Zdigits2_le; unfold prec in *; lia).
    destruct (Z.max_spec (d + e - prec) (emin prec emax)) as [[Hlt Hmax] | [Hle Hmax]].
    + fold e1 in Hmax. lia.
    + fold e1 in Hmax.
      assert (Hn : (e1 - e = d - prec)%Z) by lia.
      enough (Hdig : Zdigits2 mx = prec) by lia.
      apply Zdigits2_unique; [exact Hpos | ]. split; [ | lia].
      rewrite Hn in Hadj. apply Z.abs_lt in Hadj.
      assert (Hp : (0 < 2 ^ (d - prec))%Z) by (apply Z.pow_pos_nonneg; lia).
      assert (Hsplit : (2 ^ (d - 1) = 2 ^ (prec - 1) * 2 ^ (d - prec))%Z).
      { rewrite <- Z.pow_add_r by (unfold prec in *; lia). f_equal. lia. }
      destruct (Z_le_gt_dec (2 ^ (prec - 1)) mx) as [H | H]; [exact H | exfalso].
      assert ((mx * 2 ^ (d - prec) <= (2 ^ (prec - 1) - 1) * 2 ^ (d - prec))%Z)
        by (apply Z.mul_le_mono_nonneg_r; lia).
      lia.
Qed.

(** Rounding is monotone: a value that is at most a [double] rounds to a
    finite number that is at most that [double]. *)
Lemma binary_round_aux_le (m : positive) (e : Z) (mB : positive) (eB : Z) :
  (e <= fexp prec emax (Zpos (digits2_pos m) + e))%Z ->
  is_double (S754_finite false mB eB) = true ->
  F2Q (Zpos m) e <= F2Q (Zpos mB) eB ->
  let z := binary_round_aux prec emax false (Zpos m) e loc_Exact in
  nonneg_finite z = true /\ Qval z <= F2Q (Zpos mB) eB.
Proof.
  intros Hfine HB Hle. cbv zeta.
  destruct (binary_round_aux_fine m Hfine) as (mx & Hmx & Hadj & ->).
  apply is_double_finite in HB as [HcB HbB].
  pose proof (F2Q_bounds m e) as [Hlo _].
  pose proof (F2Q_bounds mB eB) as [_ Hhi].
  pose proof (digits2_pos_bounds mB) as [_ HmB].
  unfold fexp in *.
  set (d := Zpos (digits2_pos m)) in *.
  set (dB := Zpos (digits2_pos mB)) in *.
  set (e1 := Z.max (d + e - prec) (emin prec emax)) in *.
  assert (Hde : (d - 1 + e < dB + eB)%Z) by (apply pow2_lt_inv; lra).
  assert (He1 : (e1 <= eB)%Z) by lia.
  assert (HdB : (dB <= prec)%Z) by lia.
  assert (HmB' : (Zpos mB < 2 ^ prec)%Z).
  { apply Z.lt_le_trans with (1 := HmB). apply Z.pow_le_mono_r; lia. }
  (* the bound, as a mantissa at exponent e1 *)
  set (K := (Zpos mB * 2 ^ (eB - e1))%Z).
  assert (HK : (Zpos m <= K * 2 ^ (e1 - e))%Z).
  { unfold K. rewrite <- Z.mul_assoc, <- Z.pow_add_r by lia.
    apply (@F2Q_le_iff (Zpos m) (Zpos mB) e (eB - e1 + (e1 - e))); [lia | ].
    replace (e + (eB - e1 + (e1 - e)))%Z with eB by lia. exact Hle. }
  assert (Hp : (0 < 2 ^ (e1 - e))%Z) by (apply Z.pow_pos_nonneg; lia).
  assert (HmxK : (mx <= K)%Z).
  { apply Z.abs_lt in Hadj.
    destruct (Z_le_gt_dec mx K) as [H | H]; [exact H | exfalso].
    assert (((K + 1) * 2 ^ (e1 - e) <= mx * 2 ^ (e1 - e))%Z)
      by (apply Z.mul_le_mono_nonneg_r; lia).
    lia. }
  assert (Hval : F2Q mx e1 <= F2Q (Zpos mB) eB).
  { replace eB with (e1 + (eB - e1))%Z at 1 by lia.
    apply F2Q_le_iff; [lia | exact HmxK]. }
  destruct (Z.eqb_spec mx (2 ^ prec)) as [E | E].
  - (* the mantissa reached 2^53 *)
    assert (Hlt : (e1 < eB)%Z).
    { destruct (Z_lt_ge_dec e1 eB) as [H | H]; [exact H | exfalso].
      assert (Hz : (eB - e1 = 0)%Z) by lia.
      unfold K in HmxK. rewrite Hz, Z.pow_0_r in HmxK. lia. }
    change (2 ^ (prec - 1))%Z with (Zpos 4503599627370496). cbn [round_result].
    destruct (Z.leb_spec (e1 + 1) (emax - prec)) as [_ | H]; [ | lia].
    split; [reflexivity | ]. cbn [Qval].
    apply Qle_trans with (2 := Hval). rewrite E.
    change (2 ^ prec)%Z with (4503599627370496 * 2 ^ 1)%Z.
    rewrite F2Q_shift by lia. apply Qle_refl.
  - destruct mx as [ | q | q]; cbn [round_result]; [ | | lia].
    + split; [reflexivity | ]. cbn [Qval]. apply F2Q_nonneg. lia.
    + destruct (Z.leb_spec e1 (emax - prec)) as [_ | H]; [ | lia].
      split; [reflexivity | exact Hval].
Qed.

(** A value that is a [double] is its own rounding. *)
Lemma binary_round_aux_exact (m q : positive) (e : Z) :
  let e1 := fexp prec emax (Zpos (digits2_pos m) + e) in
  (e <= e1)%Z -> (Zpos m = Zpos q * 2 ^ (e1 - e))%Z -> (Zpos q < 2 ^ prec)%Z ->
  binary_round_aux prec emax false (Zpos m) e loc_Exact = round_result (Zpos q) e1.
Proof.
  intros e1 Hfine Hm Hq.
  destruct (binary_round_aux_fine m Hfine) as (mx & Hmx & Hadj & ->).
  fold e1 in Hadj |- *.
  assert (Hp : (0 < 2 ^ (e1 - e))%Z) by (apply Z.pow_pos_nonneg; lia).
  assert (E : mx = Zpos q).
  { apply Z.abs_lt in Hadj. rewrite Hm in Hadj.
    destruct (Z.lt_trichotomy mx (Zpos q)) as [H | [H | H]]; [exfalso | exact H | exfalso].
    - assert (((mx + 1) * 2 ^ (e1 - e) <= Zpos q * 2 ^ (e1 - e))%Z)
        by (apply Z.mul_le_mono_nonneg_r; lia).
      lia.
    - assert (((Zpos q + 1) * 2 ^ (e1 - e) <= mx * 2 ^ (e1 - e))%Z)
        by (apply Z.mul_le_mono_nonneg_r; lia).
      lia. }
  rewrite E. destruct (Z.eqb_spec (Zpos q) (2 ^ prec)) as [H | _]; [lia | reflexivity].
Qed.

(** The sign of the result is the sign given. *)
Lemma binary_round_aux_opp (m e : Z) (l : location) :
  binary_round_aux prec emax true m e l =
    SFopp (binary_round_aux prec emax false m e l).
Proof.
  unfold binary_round_aux.
  destruct (shr_fexp prec emax m e l) as [mrs' e'].
  destruct (shr_fexp prec emax _ e' loc_Exact) as [mrs'' e''].
  destruct (shr_m mrs''); cbn [SFopp negb]; try reflexivity.
  destruct (e'' <=? emax - prec)%Z; reflexivity.
Qed.

(** The product of two mantissas of [dx] and [dy] bits has at least
    [dx + dy - 1] bits. *)
Lemma digits2_pos_mul (mx my : positive) :
  (Zpos (digits2_pos mx) + Zpos (digits2_pos my) - 1
     <= Zpos (digits2_pos (mx * my)))%Z.
Proof.
  pose proof (digits2_pos_bounds mx) as [Hx _].
  pose proof (digits2_pos_bounds my) as [Hy _].
  pose proof (digits2_pos_bounds (mx * my)) as [_ Hxy].
  set (dx := Zpos (digits2_pos mx)) in *. set (dy := Zpos (digits2_pos my)) in *.
  set (d := Zpos (digits2_pos (mx * my))) in *.
  destruct (Z_le_gt_dec (dx + dy - 1) d) as [H | H]; [exact H | exfalso].
  assert (H1 : (2 ^ d <= 2 ^ (dx - 1 + (dy - 1)))%Z)
    by (apply Z.pow_le_mono_r; unfold dx, dy, d in *; lia).
  rewrite Z.pow_add_r in H1 by (unfold dx, dy; lia).
  assert (H2 : (2 ^ (dx - 1) * 2 ^ (dy - 1) <= Zpos mx * Zpos my)%Z)
    by (apply Z.mul_le_mono_nonneg; lia).
  rewrite Pos2Z.inj_mul in Hxy. lia.
Qed.

(** The exact product of two [double]s has no exponent above the one its
    rounding takes. *)
Lemma product_fine (sx sy : bool) (mx my : positive) (ex ey : Z) :
  is_double (S754_finite sx mx ex) = true ->
  is_double (S754_finite sy my ey) = true ->
  (ex + ey <= fexp prec emax (Zpos (digits2_pos (mx * my)) + (ex + ey)))%Z.
Proof.
  intros Hx Hy. apply is_double_finite in Hx as [Hx _], Hy as [Hy _].
  pose proof (digits2_pos_mul mx my) as Hd. unfold fexp.
  assert (0 < Zpos (digits2_pos mx))%Z by lia.
  assert (0 < Zpos (digits2_pos my))%Z by lia.
  unfold prec, emin, emax in *. lia.
Qed.

Lemma is_double_opp (x : double) : is_double (SFopp x) = is_double x.
Proof. destruct x; reflexivity. Qed.

(** The product of two [double]s is a [double]. *)
Lemma SFmul_is_double (x y : double) :
  is_double x = true -> is_double y = true ->
  is_double (SFmul prec emax x y) = true.
Proof.
  intros Hx Hy.
  destruct x as [sx | sx | | sx mx ex], y as [sy | sy | | sy my ey];
    try reflexivity.
  cbn [SFmul]. pose proof (product_fine _ _ _ _ _ _ Hx Hy) as Hfine.
  destruct (xorb sx sy).
  - rewrite binary_round_aux_opp, is_double_opp.
    apply binary_round_aux_is_double. exact Hfine.
  - apply binary_round_aux_is_double. exact Hfine.
Qed.

(** Multiplying by a factor of at most 1 does not increase a number, and
    does not overflow. *)
Lemma SFmul_le (x y : double) :
  is_double x = true -> is_double y = true ->
  nonneg_finite x = true -> nonneg_finite y = true -> Qval y <= 1 ->
  nonneg_finite (SFmul prec emax x y) = true /\
  Qval (SFmul prec emax x y) <= Qval x.
Proof.
  intros Hx Hy Hnx Hny Hle.
  destruct x as [sx | sx | | [ | ] mx ex]; try discriminate;
    destruct y as [sy | sy | | [ | ] my ey]; try discriminate;
    cbn [SFmul Qval xorb nonneg_finite] in *.
  - split; [reflexivity | apply Qle_refl].
  - split; [reflexivity | apply Qle_refl].
  - split; [reflexivity | apply F2Q_nonneg; lia].
  - apply binary_round_aux_le.
    + exact (product_fine _ _ _ _ _ _ Hx Hy).
    + exact Hx.
    + assert (E : F2Q (Zpos (mx * my)) (ex + ey)
                  == F2Q (Zpos mx) ex * F2Q (Zpos my) ey).
      { unfold F2Q. rewrite Pos2Z.inj_mul, inject_Z_mult, pow2_add. ring. }
      rewrite E. pose proof (F2Q_pos mx ex). nra.
Qed.

(** Multiplying by 1.0 changes nothing. *)
Lemma SFmul_one (x : double) : is_double x = true -> SFmul prec emax x d1 = x.
Proof.
  intros Hx. destruct x as [sx | sx | | sx mx ex]; cbn [SFmul d1];
    rewrite ?xorb_false_r; try reflexivity.
  pose proof Hx as Hx'. apply is_double_finite in Hx' as [Hcan Hbnd].
  pose proof (digits2_pos_bounds mx) as [Hlo Hhi].
  set (dx := Zpos (digits2_pos mx)) in *.
  assert (Hdig : Zpos (digits2_pos (mx * 4503599627370496)) = (dx + 52)%Z).
  { change (Zpos (digits2_pos (mx * 4503599627370496)))
      with (Zdigits2 (Zpos (mx * 4503599627370496))).
    apply Zdigits2_unique; [lia | ].
    rewrite Pos2Z.inj_mul. change (Zpos 4503599627370496) with (2 ^ 52)%Z.
    replace (dx + 52 - 1)%Z with (dx - 1 + 52)%Z by lia.
    rewrite !Z.pow_add_r by (unfold dx; lia). lia. }
  assert (Hexp : fexp prec emax
                   (Zpos (digits2_pos (mx * 4503599627370496)) + (ex + -52)) = ex).
  { rewrite Hdig. unfold fexp. replace (dx + 52 + (ex + -52))%Z with (dx + ex)%Z by lia.
    symmetry. exact Hcan. }
  assert (Hm : (Zpos mx < 2 ^ prec)%Z).
  { apply Z.lt_le_trans with (1 := Hhi). apply Z.pow_le_mono_r; unfold dx, prec in *; lia. }
  assert (Hround : binary_round_aux prec emax false
                     (Zpos (mx * 4503599627370496)) (ex + -52) loc_Exact
                   = S754_finite false mx ex).
  { rewrite (@binary_round_aux_exact (mx * 4503599627370496) mx (ex + -52));
      rewrite ?Hexp.
    - cbn [round_result]. destruct (Z.leb_spec ex (emax - prec)); [reflexivity | lia].
    - lia.
    - replace (ex - (ex + -52))%Z with 52%Z by lia. rewrite Pos2Z.inj_mul. reflexivity.
    - exact Hm. }
  destruct sx.
  - rewrite binary_round_aux_opp, Hround. reflexivity.
  - exact Hround.
Qed.

(** [shl_align] leaves a mantissa whose exponent is at most the one its
    rounding takes. *)
Lemma shl_align_fine (m : positive) (e : Z) :
  let mz := fst (shl_align m e (fexp prec emax (Zpos (digits2_pos m) + e))) in
  let ez := snd (shl_align m e (fexp prec emax (Zpos (digits2_pos m) + e))) in
  (ez <= fexp prec emax (Zpos (digits2_pos mz) + ez))%Z.
Proof.
  cbv zeta. unfold shl_align.
  destruct (fexp prec emax (Zpos (digits2_pos m) + e) - e)%Z as [ | p | p] eqn:E;
    cbn [fst snd]; try lia.
  pose proof (digits2_pos_bounds m) as [Hlo Hhi].
  set (d := Zpos (digits2_pos m)) in *.
  assert (Hdig : Zpos (digits2_pos (Pos.iter xO m p)) = (d + Zpos p)%Z).
  { change (Zpos (digits2_pos (Pos.iter xO m p)))
      with (Zdigits2 (Zpos (Pos.iter xO m p))).
    apply Zdigits2_unique; [lia | ]. rewrite iter_xO_value.
    replace (d + Zpos p - 1)%Z with (d - 1 + Zpos p)%Z by lia.
    rewrite !Z.pow_add_r by (unfold d; lia). 
    assert (0 < 2 ^ Zpos p)%Z by lia. nia. }
  rewrite Hdig.
  replace (d + Zpos p + fexp prec emax (d + e))%Z with (d + e)%Z by lia.
  lia.
Qed.

Lemma binary_round_is_double (m : positive) (e : Z) :
  is_double (binary_round prec emax false m e) = true.
Proof.
  unfold binary_round. pose proof (shl_align_fine m e) as Hfine. cbv zeta in Hfine.
  destruct (shl_align m e (fexp prec emax (Zpos (digits2_pos m) + e))) as [mz ez].
  cbn [fst snd] in Hfine. apply binary_round_aux_is_double. exact Hfine.
Qed.

Lemma binary_round_le (m : positive) (e : Z) (mB : positive) (eB : Z) :
  is_double (S754_finite false mB eB) = true ->
  F2Q (Zpos m) e <= F2Q (Zpos mB) eB ->
  nonneg_finite (binary_round prec emax false m e) = true /\
  Qval (binary_round prec emax false m e) <= F2Q (Zpos mB) eB.
Proof.
  intros HB Hle. unfold binary_round.
  pose proof (shl_align_fine m e) as Hfine. cbv zeta in Hfine.
  pose proof (shl_align_value m e (fexp prec emax (Zpos (digits2_pos m) + e)))
    as Hval.
  destruct (shl_align m e (fexp prec emax (Zpos (digits2_pos m) + e))) as [mz ez].
  cbn [fst snd] in Hfine, Hval. rewrite <- Hval in Hle.
  apply binary_round_aux_le; assumption.
Qed.

(** [1.0 - s] for a [double] [s] between 0 and 1: a [double] between 0 and 1. *)
Lemma SFsub_one (s : double) :
  is_double s = true -> nonneg_finite s = true -> Qval s <= 1 ->
  let t := SFsub prec emax d1 s in
  is_double t = true /\ nonneg_finite t = true /\ Qval t <= 1.
Proof.
  intros Hs Hn Hle. cbv zeta.
  destruct s as [sg | sg | | [ | ] my ey]; try discriminate.
  - repeat split. rewrite Qval_one. apply Qle_refl.
  - unfold d1. cbn [SFsub cond_Zopp Qval] in *.
    pose proof (shl_align_value 4503599627370496 (-52) (Z.min (-52) ey)) as Hvx.
    pose proof (shl_align_value my ey (Z.min (-52) ey)) as Hvy.
    rewrite shl_align_min in Hvx, Hvy by lia.
    set (m1 := fst (shl_align 4503599627370496 (-52) (Z.min (-52) ey))) in *.
    set (m2 := fst (shl_align my ey (Z.min (-52) ey))) in *.
    assert (E : F2Q (Zpos m1 - Zpos m2) (Z.min (-52) ey)
                == 1 - F2Q (Zpos my) ey).
    { rewrite <- Qval_one. unfold d1. cbn [Qval].
      rewrite <- Hvx, <- Hvy. unfold F2Q, Zminus.
      rewrite inject_Z_plus, inject_Z_opp. ring. }
    pose proof (F2Q_pos my ey) as Hpos.
    destruct (Zpos m1 - Zpos m2)%Z as [ | d | d] eqn:Ed; cbn [binary_normalize].
    + repeat split. cbn [Qval]. lra.
    + split; [apply binary_round_is_double | ].
      assert (Hb : F2Q (Zpos d) (Z.min (-52) ey) <= F2Q 4503599627370496 (-52)).
      { rewrite E. change (F2Q 4503599627370496 (-52)) with (Qval d1).
        rewrite Qval_one. lra. }
      destruct (@binary_round_le d _ 4503599627370496 (-52) eq_refl Hb) as [H1 H2].
      split; [exact H1 | ].
      change (F2Q 4503599627370496 (-52)) with (Qval d1) in H2.
      rewrite Qval_one in H2. exact H2.
    + exfalso.
      assert (F2Q (Zneg d) (Z.min (-52) ey) < 0).
      { unfold F2Q. pose proof (pow2_pos (Z.min (-52) ey)) as Hp.
        assert (Hn' : inject_Z (Zneg d) < 0)
          by (change 0 with (inject_Z 0); rewrite <- Zlt_Qlt; lia).
        nra. }
      lra.
Qed.

(** Of two [double]s, the one with the larger exponent is the larger. *)
Lemma larger_exponent_larger (m1 m2 : positive) (e1 e2 : Z) :
  is_double (S754_finite false m1 e1) = true ->
  is_double (S754_finite false m2 e2) = true ->
  (e2 < e1)%Z -> F2Q (Zpos m2) e2 < F2Q (Zpos m1) e1.
Proof.
  intros H1 H2 Hlt.
  apply is_double_finite in H1 as [Hc1 _], H2 as [Hc2 _].
  pose proof (F2Q_bounds m1 e1) as [Hlo _].
  pose proof (F2Q_bounds m2 e2) as [_ Hhi].
  assert (Hle : pow2 (Zpos (digits2_pos m2) + e2)
                <= pow2 (Zpos (digits2_pos m1) - 1 + e1))
    by (apply pow2_le; unfold prec, emin, emax in *; lia).
  lra.
Qed.

(** The comparisons of the code agree with the order of the values. *)
Lemma SFltb_of_Qlt (x y : double) :
  is_double x = true -> is_double y = true ->
  nonneg_finite x = true -> nonneg_finite y = true ->
  Qval x < Qval y -> SFltb x y = true.
Proof.
  intros Hx Hy Hnx Hny Hlt.
  destruct x as [sx | sx | | [ | ] mx ex]; try discriminate;
    destruct y as [sy | sy | | [ | ] my ey]; try discriminate;
    cbn [Qval] in Hlt; try reflexivity.
  - exfalso. pose proof (F2Q_pos mx ex). lra.
  - unfold SFltb. cbn [SFcompare].
    destruct (Z.compare_spec ex ey) as [He | He | He]; try reflexivity.
    + subst ey. unfold F2Q in Hlt. apply Qmult_lt_r in Hlt; [ | apply pow2_pos].
      rewrite <- Zlt_Qlt in Hlt.
      change (Pos.compare_cont Eq mx my) with (Pos.compare mx my).
      apply Pos.compare_lt_iff in Hlt. rewrite Hlt. reflexivity.
    + exfalso. pose proof (larger_exponent_larger _ _ Hx Hy He). lra.
Qed.

Lemma SFleb_of_Qle (x y : double) :
  is_double x = true -> is_double y = true ->
  nonneg_finite x = true -> nonneg_finite y = true ->
  Qval x <= Qval y -> SFleb x y = true.
Proof.
  intros Hx Hy Hnx Hny Hle.
  destruct x as [sx | sx | | [ | ] mx ex]; try discriminate;
    destruct y as [sy | sy | | [ | ] my ey]; try discriminate;
    cbn [Qval] in Hle; try reflexivity.
  - exfalso. pose proof (F2Q_pos mx ex). lra.
  - unfold SFleb. cbn [SFcompare].
    destruct (Z.compare_spec ex ey) as [He | He | He]; try reflexivity.
    + subst ey. unfold F2Q in Hle. apply Qmult_le_r in Hle; [ | apply pow2_pos].
      rewrite <- Zle_Qle in Hle.
      change (Pos.compare_cont Eq mx my) with (Pos.compare mx my).
      apply Pos.compare_le_iff in Hle.
      destruct (Pos.compare mx my); try reflexivity. exfalso. apply Hle. reflexivity.
    + exfalso. pose proof (larger_exponent_larger _ _ Hx Hy He). lra.
Qed.

(** The value of [std::min] is the minimum of the values. *)
Lemma Qval_std_min (a b : double) :
  is_double a = true -> is_double b = true ->
  nonneg_finite a = true -> nonneg_finite b = true ->
  Qval (std_min a b) == Qmin (Qval a) (Qval b).
Proof.
  intros Ha Hb Hna Hnb. unfold std_min. change flt with SFltb.
  destruct (SFltb b a) eqn:E.
  - destruct (Qlt_le_dec (Qval b) (Qval a)) as [H | H].
    + symmetry. apply Q.min_r. apply Qlt_le_weak. exact H.
    + pose proof (SFleb_of_Qle a b Ha Hb Hna Hnb H) as Hle.
      apply SFleb_not_gt in Hle. congruence.
  - destruct (Qlt_le_dec (Qval b) (Qval a)) as [H | H].
    + pose proof (SFltb_of_Qlt b a Hb Ha Hnb Hna H). congruence.
    + symmetry. apply Q.min_l. exact H.
Qed.

(** Arithmetic of the error bounds. *)

Lemma mul_unit_bounds (x k : Q) :
  0 <= x -> 0 <= k -> k <= 1 -> 0 <= x * k /\ x * k <= x.
Proof. intros Hx Hk0 Hk1. split; nra. Qed.

Lemma scaled_error (x y e k : Q) :
  0 <= k -> k <= 1 -> - e <= x - y -> x - y <= e ->
  (- e <= x * k - y * k /\ x * k - y * k <= e) /\
  (- e <= (x - x * k) - (y - y * k) /\ (x - x * k) - (y - y * k) <= e).
Proof. intros Hk0 Hk1 H1 H2. repeat split; nra. Qed.

Lemma factor_error (r t s d : Q) :
  0 <= r -> - d <= t - (1 - s) -> t - (1 - s) <= d ->
  - (d * r) <= r * t - (r - r * s) /\ r * t - (r - r * s) <= d * r.
Proof. intros Hr H1 H2. split; nra. Qed.

(** The four roundings of a run against the exact products: [r] stands
    for the rounded reacted amount [E0], [t] for the rounded [1 - s], [R] and
    [S] for the rounded products; [u] is [2^-53] and [eta] the absolute error
    of a subnormal result. *)
Lemma products_arith (eta E0 r s t R S : Q) :
  let u := 1 # 9007199254740992 in
  0 <= eta -> eta <= u ->
  0 <= E0 -> 0 <= r -> 0 <= s -> s <= 1 -> 0 <= t -> t <= 1 ->
  Qabs (r - E0) <= u * E0 + eta ->
  Qabs (t - (1 - s)) <= u * (1 - s) + eta ->
  Qabs (R - r * s) <= u * (r * s) + eta ->
  Qabs (S - r * t) <= u * (r * t) + eta ->
  Qabs (r - E0) <= 8 * u * E0 + 4 * eta /\
  Qabs (R - E0 * s) <= 8 * u * E0 + 4 * eta /\
  Qabs (S - E0 * (1 - s)) <= 8 * u * E0 + 4 * eta.
Proof.
  intros u Heta Hetau HE0 Hr Hs0 Hs1 Ht0 Ht1 Hre Hte HRe HSe.
  apply Qabs_Qle_condition in Hre, Hte, HRe, HSe.
  setoid_replace (E0 * (1 - s)) with (E0 - E0 * s) by ring.
  rewrite !Qabs_Qle_condition.
  unfold u in *. clear u.
  destruct Hre as [Hre1 Hre2], Hte as [Hte1 Hte2].
  destruct (mul_unit_bounds Hr Hs0 Hs1) as [Hrs0 Hrs1].
  destruct (mul_unit_bounds Hr Ht0 Ht1) as [Hrt0 Hrt1].
  destruct (scaled_error Hs0 Hs1 Hre1 Hre2) as [[Hd1 Hd2] [Hd3 Hd4]].
  assert (Hte1' : - (2 * (1 # 9007199254740992)) <= t - (1 - s)) by lra.
  assert (Hte2' : t - (1 - s) <= 2 * (1 # 9007199254740992)) by lra.
  destruct (factor_error Hr Hte1' Hte2') as [Hf1 Hf2].
  set (rs := r * s) in *. set (rt := r * t) in *. set (Es := E0 * s) in *.
  destruct HRe, HSe.
  repeat split; lra.
Qed.

(** ** States in range *)

(** What the members of a state in range amount to: the limiting input,
    the reacted amount and the second factor are finite [double]s that are
    not negative, the reacted amount is at most the limiting input, and the
    factors are at most 1. *)
Lemma in_range_values (this : ComplexReactor double) :
  members_are_doubles this = true -> in_range this = true ->
  is_finite (a_ this) = true -> is_finite (b_ this) = true ->
  let limiting := std_min (a_ this) (b_ this) in
  let reacted := (limiting * conversion_ this)%fl in
  let t := (fone - splitRatio_ this)%fl in
  (is_double limiting = true /\ nonneg_finite limiting = true /\
   Qval limiting == Qmin (Qval (a_ this)) (Qval (b_ this))) /\
  (nonneg_finite (conversion_ this) = true /\ Qval (conversion_ this) <= 1) /\
  (nonneg_finite (splitRatio_ this) = true /\ Qval (splitRatio_ this) <= 1) /\
  (is_double reacted = true /\ nonneg_finite reacted = true /\
   Qval reacted <= Qval limiting) /\
  (is_double t = true /\ nonneg_finite t = true /\ Qval t <= 1).
Proof.
  unfold members_are_doubles, in_range, in_unit.
  destruct this as [a b c two s l]. cbn [a_ b_ conversion_ splitRatio_].
  rewrite !andb_true_iff.
  intros [[[Ha Hb] Hc] Hs] [[[[Hc0 Hc1] [Hs0 Hs1]] Ha0] Hb0] Hfa Hfb. cbv zeta.
  assert (Hna : nonneg_finite a = true) by (apply nonneg_of_leb; assumption).
  assert (Hnb : nonneg_finite b = true) by (apply nonneg_of_leb; assumption).
  destruct (unit_value _ Hc Hc0 Hc1) as [Hnc Hvc].
  destruct (unit_value _ Hs Hs0 Hs1) as [Hns Hvs].
  assert (Hm : is_double (std_min a b) = true /\ nonneg_finite (std_min a b) = true).
  { unfold std_min. destruct (b <? a)%fl; split; assumption. }
  destruct Hm as [Hm Hnm].
  split; [split; [exact Hm | split; [exact Hnm | apply Qval_std_min; assumption]] | ].
  split; [split; assumption | ]. split; [split; assumption | ].
  split.
  - split; [apply SFmul_is_double; assumption | ].
    apply SFmul_le; assumption.
  - apply SFsub_one; assumption.
Qed.

(** Numbers that compare equal are the same, or both zeros. *)
Lemma SFcompare_Eq_same (x y : double) :
  SFcompare x y = Some Eq ->
  x = y \/ exists sx sy, x = S754_zero sx /\ y = S754_zero sy.
Proof.
  destruct x as [sx | sx | | sx mx ex], y as [sy | sy | | sy my ey];
    cbn [SFcompare]; try discriminate;
    try (destruct sx; discriminate); try (destruct sy; discriminate).
  - intros _. right. eauto.
  - destruct sx, sy; try discriminate; intros _; left; reflexivity.
  - destruct sx, sy; try discriminate;
      destruct (Z.compare_spec ex ey) as [He | He | He]; try discriminate;
      intros [= H]; left; subst ey.
    + apply (f_equal CompOpp) in H. rewrite CompOpp_involutive in H. cbn in H.
      apply Pos.compare_eq in H. subst my. reflexivity.
    + apply Pos.compare_eq in H. subst my. reflexivity.
Qed.

(** Among numbers that are not zeros of opposite signs [std::min] is
    symmetric. *)
Lemma std_min_comm (a b : double) :
  a <> S754_nan -> b <> S754_nan ->
  (forall sg, ~ (a = S754_zero sg /\ b = S754_zero (negb sg))) ->
  std_min a b = std_min b a.
Proof.
  intros Ha Hb Hz. unfold std_min. change flt with SFltb. unfold SFltb.
  rewrite (SFcompare_antisym a b).
  destruct (SFcompare_total Ha Hb) as [c Hc]. rewrite Hc.
  destruct c; cbn [option_map CompOpp]; try reflexivity.
  destruct (SFcompare_Eq_same _ _ Hc) as [E | (sx & sy & -> & ->)]; [exact E | ].
  destruct sx, sy; try reflexivity.
  - exfalso. apply (Hz true). split; reflexivity.
  - exfalso. apply (Hz false). split; reflexivity.
Qed.

(** A zero times a number of [[0,1]] is a zero. *)
Lemma zero_times_unit (sg : bool) (v : double) :
  nonneg_finite v = true ->
  exists sg', SFmul prec emax (S754_zero sg) v = S754_zero sg'.
Proof.
  destruct v as [sv | sv | | [ | ] mv ev]; try discriminate; intros _;
    eexists; reflexivity.
Qed.

(** ** Sequences of calls *)

Lemma run_cons {T : Type} {ops : Scalar T} (c : call T) (calls : list (call T))
    (this : ComplexReactor T) :
  run (c :: calls) this = run calls (after c this).
Proof. reflexivity. Qed.

Lemma after_RunReaction {T : Type} {ops : Scalar T} (this : ComplexReactor T) :
  after RunReaction this = with_lastOutputs (products this) this.
Proof. unfold after, invoke, bind. rewrite runReaction_eq. reflexivity. Qed.

Lemma after_GetLastOutput {T : Type} {ops : Scalar T} (idx : N)
    (this : ComplexReactor T) :
  after (GetLastOutput idx) this = this.
Proof.
  unfold after, invoke, bind, call_const.
  destruct (getLastOutput idx this); reflexivity.
Qed.

Lemma after_SetInputs {T : Type} {ops : Scalar T} (a b : T)
    (this : ComplexReactor T) :
  after (SetInputs a b) this =
    if ((a <? fzero) || (b <? fzero))%fl then this
    else mkReactor a b (conversion_ this) (twoOutputs_ this)
                   (splitRatio_ this) (lastOutputs_ this).
Proof.
  unfold after, invoke. rewrite setInputs_eq.
  destruct ((a <? fzero) || (b <? fzero))%fl; reflexivity.
Qed.

Lemma after_SetConversion {T : Type} {ops : Scalar T} (v : T)
    (this : ComplexReactor T) :
  after (SetConversion v) this =
    mkReactor (a_ this) (b_ this) v (twoOutputs_ this)
              (splitRatio_ this) (lastOutputs_ this).
Proof. unfold after, invoke. rewrite setConversion_eq. reflexivity. Qed.

Lemma after_SetSplitRatio {T : Type} {ops : Scalar T} (v : T)
    (this : ComplexReactor T) :
  after (SetSplitRatio v) this =
    mkReactor (a_ this) (b_ this) (conversion_ this) (twoOutputs_ this)
              v (lastOutputs_ this).
Proof. unfold after, invoke. rewrite setSplitRatio_eq. reflexivity. Qed.

(** Calls without NaN arguments bring no NaN into the state. *)
Lemma after_nan_free (c : call double) (this : ComplexReactor double) :
  nan_free_call c = true -> nan_free this = true -> nan_free (after c this) = true.
Proof.
  unfold nan_free. destruct c as [a b | v | two | v | | | idx]; cbn [nan_free_call];
    intros Hc H.
  - rewrite after_SetInputs. destruct ((a <? fzero) || (b <? fzero))%fl; [exact H | ].
    cbn [a_ b_ conversion_ splitRatio_].
    rewrite !andb_true_iff in *. tauto.
  - rewrite after_SetConversion. cbn [a_ b_ conversion_ splitRatio_].
    rewrite !andb_true_iff in *. tauto.
  - exact H.
  - rewrite after_SetSplitRatio. cbn [a_ b_ conversion_ splitRatio_].
    rewrite !andb_true_iff in *. tauto.
  - rewrite after_RunReaction. exact H.
  - cbn [after invoke reset snd]. unfold reset, bind. cbn.
    rewrite !andb_true_iff in *. tauto.
  - rewrite after_GetLastOutput. exact H.
Qed.

Lemma run_nan_free (calls : list (call double)) :
  forall this : ComplexReactor double,
    forallb nan_free_call calls = true -> nan_free this = true ->
    nan_free (run calls this) = true.
Proof.
  induction calls as [ | c calls IH]; intros this Hcalls H.
  - exact H.
  - cbn [forallb] in Hcalls. apply andb_true_iff in Hcalls as [Hc Hcalls].
    rewrite run_cons. apply IH; [exact Hcalls | ]. apply after_nan_free; assumption.
Qed.

Lemma is_nan_false (x : double) : is_nan x = false -> x <> S754_nan.
Proof. intros H ->. discriminate. Qed.

(** Every call keeps the inputs non-negative and at most two outputs
    stored, whether it returns or throws. *)
Lemma after_inputs_and_outputs_ok (c : call double) (this : ComplexReactor double) :
  inputs_and_outputs_ok this = true -> inputs_and_outputs_ok (after c this) = true.
Proof.
  unfold inputs_and_outputs_ok. intros H.
  destruct c as [a b | v | two | v | | | idx].
  - rewrite after_SetInputs.
    destruct (a <? fzero)%fl eqn:Ea; [exact H | ].
    destruct (b <? fzero)%fl eqn:Eb; [exact H | ].
    cbn [orb a_ b_ lastOutputs_]. rewrite Ea, Eb.
    rewrite !andb_true_iff in *. tauto.
  - rewrite after_SetConversion. exact H.
  - exact H.
  - rewrite after_SetSplitRatio. exact H.
  - rewrite after_RunReaction. unfold with_lastOutputs, products.
    cbn [a_ b_ lastOutputs_]. rewrite !andb_true_iff in *.
    destruct H as [H _]. split; [exact H | ].
    destruct (twoOutputs_ this); reflexivity.
  - reflexivity.
  - rewrite after_GetLastOutput. exact H.
Qed.

Lemma run_inputs_and_outputs_ok (calls : list (call double)) :
  forall this : ComplexReactor double,
    inputs_and_outputs_ok this = true ->
    inputs_and_outputs_ok (run calls this) = true.
Proof.
  induction calls as [ | c calls IH]; intros this H.
  - exact H.
  - rewrite run_cons. apply IH, after_inputs_and_outputs_ok, H.
Qed.

(** ** Invariants *)

(** X1: the ranges of the data model hold as long as nothing is thrown.
    On a constructed reactor, after any sequence of calls that all return,
    the state passes every range test of the class; and when no argument
    was a NaN, the conversion and the split ratio are in [[0,1]] and both
    inputs are at least 0. *)
Theorem no_throw_keeps_ranges (conversion : double) (twoOutputs : bool)
    (splitRatio : double) (this0 : ComplexReactor double)
    (calls : list (call double)) :
  new_ComplexReactor conversion twoOutputs splitRatio = Return this0 ->
  all_return calls this0 = true ->
  accepted (run calls this0) = true /\
  (is_nan conversion = false -> is_nan splitRatio = false ->
   forallb nan_free_call calls = true ->
   in_range (run calls this0) = true).
Proof.
  intros Hnew Hret.
  assert (Hacc : accepted (run calls this0) = true).
  { apply run_returned_accepted; [reflexivity | | exact Hret].
    exact (constructed_accepted conversion twoOutputs splitRatio eq_refl Hnew). }
  split; [exact Hacc | ]. intros Hc Hs Hcalls.
  assert (Hfree : nan_free (run calls this0) = true).
  { apply run_nan_free; [exact Hcalls | ].
    rewrite new_ComplexReactor_eq in Hnew.
    destruct (outside_unit conversion); [discriminate | ].
    destruct (outside_unit splitRatio); [discriminate | ].
    injection Hnew as <-. unfold nan_free. cbn [a_ b_ conversion_ splitRatio_].
    rewrite Hc, Hs. reflexivity. }
  unfold nan_free in Hfree. rewrite !andb_true_iff, !negb_true_iff in Hfree.
  destruct Hfree as [[[Ha Hb] Hc'] Hs'].
  apply accepted_in_range; auto using is_nan_false.
Qed.

(** [no_throw_keeps_ranges] at the calls of the test [MultipleRunsAndReset],
    on a reactor constructed with (0.5, false, 0.5). *)
Lemma no_throw_keeps_ranges_witness :
  in_range (run calls_MultipleRunsAndReset default_state) = true.
Proof.
  destruct (@no_throw_keeps_ranges d0_5 false d0_5 default_state
              calls_MultipleRunsAndReset eq_refl eq_refl) as [_ H].
  exact (H eq_refl eq_refl eq_refl).
Defined.

(** X2: what no exception can break.  In every reachable state, also after
    calls that threw, neither input is negative, at most two outputs are
    stored, and [getLastOutput(idx)] throws [out_of_range] for every
    [idx >= 2]. *)
Theorem reachable_inputs_and_outputs (this : ComplexReactor double) :
  reachable this ->
  (a_ this <? fzero)%fl = false /\ (b_ this <? fzero)%fl = false /\
  (List.length (lastOutputs_ this) <= 2)%nat /\
  (forall idx : N, (2 <= idx)%N ->
     getLastOutput idx this = Throw (out_of_range "output index out of range")).
Proof.
  intros (conversion & twoOutputs & splitRatio & this0 & calls & Hnew & ->).
  assert (H0 : inputs_and_outputs_ok this0 = true).
  { rewrite new_ComplexReactor_eq in Hnew.
    destruct (outside_unit conversion); [discriminate | ].
    destruct (outside_unit splitRatio); [discriminate | ].
    injection Hnew as <-. reflexivity. }
  pose proof (run_inputs_and_outputs_ok calls this0 H0) as H.
  unfold inputs_and_outputs_ok in H.
  rewrite !andb_true_iff, !negb_true_iff in H. destruct H as [[Ha Hb] Hlen].
  apply Nat.leb_le in Hlen.
  split; [exact Ha | split; [exact Hb | split; [exact Hlen | ]]].
  intros idx Hidx. rewrite getLastOutput_eq.
  destruct (N.leb_spec (N.of_nat (List.length (lastOutputs_ (run calls this0)))) idx);
    [reflexivity | lia].
Qed.

(** [reachable_inputs_and_outputs] after a rejected [setInputs(-0.1, 2)], a
    rejected [setConversion(2.0)] and a run, on a default reactor. *)
Lemma reachable_inputs_and_outputs_witness :
  let this := run calls_with_rejections default_state in
  threw (fst (invoke (SetInputs dm0_1 d2) default_state)) = true /\
  (a_ this <? fzero)%fl = false /\ (b_ this <? fzero)%fl = false /\
  (List.length (lastOutputs_ this) <= 2)%nat /\
  getLastOutput 2 this = Throw (out_of_range "output index out of range").
Proof.
  cbv zeta.
  assert (Hreach : reachable (run calls_with_rejections default_state)).
  { exists d0_5, false, d0_5, default_state, calls_with_rejections.
    split; reflexivity. }
  destruct (reachable_inputs_and_outputs Hreach) as (Ha & Hb & Hlen & Hget).
  split; [reflexivity | ].
  split; [exact Ha | split; [exact Hb | split; [exact Hlen | ]]].
  apply Hget. lia.
Defined.

(** ** Exceptions and the setters *)

(** X3: which call throws what.  [setInputs] throws only
    [invalid_argument] about the inputs, and then changes nothing;
    [setConversion] and [setSplitRatio] throw only [invalid_argument], about
    a member that is out of range in the object they leave; [getLastOutput]
    throws only [out_of_range] and changes nothing; [setTwoOutputs],
    [runReaction] and [reset] never throw. *)
Theorem thrown_exceptions (c : call double) (this : ComplexReactor double)
    (e : exception) :
  fst (invoke c this) = Throw e ->
  match c with
  | SetInputs a b =>
      e = invalid_argument "inputs must be non-negative" /\
      ((a <? fzero) || (b <? fzero))%fl = true /\ after c this = this
  | SetConversion _ | SetSplitRatio _ =>
      (e = invalid_argument "conversion must be in [0,1]" /\
       outside_unit (conversion_ (after c this)) = true) \/
      (e = invalid_argument "splitRatio must be in [0,1]" /\
       outside_unit (conversion_ (after c this)) = false /\
       outside_unit (splitRatio_ (after c this)) = true)
  | GetLastOutput idx =>
      e = out_of_range "output index out of range" /\
      (N.of_nat (List.length (lastOutputs_ this)) <= idx)%N /\ after c this = this
  | SetTwoOutputs _ | RunReaction | Reset => False
  end.
Proof.
  destruct c as [a b | v | two | v | | | idx].
  - rewrite after_SetInputs. cbn [invoke]. rewrite setInputs_eq.
    destruct ((a <? fzero) || (b <? fzero))%fl; cbn [fst]; [ | discriminate].
    intros [= <-]. repeat split.
  - rewrite after_SetConversion. cbn [invoke]. rewrite setConversion_eq, validateParams_eq.
    cbn [fst conversion_ splitRatio_].
    destruct (outside_unit v); [intros [= <-]; left; split; reflexivity | ].
    destruct (outside_unit (splitRatio_ this)); [ | discriminate].
    intros [= <-]. right. repeat split.
  - discriminate.
  - rewrite after_SetSplitRatio. cbn [invoke]. rewrite setSplitRatio_eq, validateParams_eq.
    cbn [fst conversion_ splitRatio_].
    destruct (outside_unit (conversion_ this)); [intros [= <-]; left; split; reflexivity | ].
    destruct (outside_unit v); [ | discriminate].
    intros [= <-]. right. repeat split.
  - cbn [invoke]. unfold bind. rewrite runReaction_eq. discriminate.
  - discriminate.
  - rewrite after_GetLastOutput. cbn [invoke]. unfold bind, call_const.
    rewrite getLastOutput_eq.
    destruct (N.leb_spec (N.of_nat (List.length (lastOutputs_ this))) idx);
      cbn [fst]; [ | discriminate].
    intros [= <-]. repeat split. assumption.
Qed.

(** [thrown_exceptions] at [setSplitRatio(1.2)] on a default reactor. *)
Lemma thrown_exceptions_witness :
  fst (invoke (SetSplitRatio d1_2) default_state)
    = Throw (invalid_argument "splitRatio must be in [0,1]") /\
  outside_unit (splitRatio_ (after (SetSplitRatio d1_2) default_state)) = true.
Proof.
  destruct (@thrown_exceptions (SetSplitRatio d1_2) default_state
              (invalid_argument "splitRatio must be in [0,1]") eq_refl)
    as [[H _] | (_ & _ & H)].
  - discriminate H.
  - split; [reflexivity | exact H].
Defined.



(** X5: a later call of the same setter overrides an earlier one.  Whether
    the first [setConversion] (or [setSplitRatio]) returned or threw, the
    second behaves, and leaves the object, as if the first had not been
    made; so a rejected value leaves no trace once the setter is called
    again.  Likewise a [setInputs] that returns overrides the inputs of an
    earlier one. *)
Theorem later_setter_call_overrides (this : ComplexReactor double)
    (c1 c2 s1 s2 a1 b1 a2 b2 : double) :
  setConversion c2 (snd (setConversion c1 this)) = setConversion c2 this /\
  setSplitRatio s2 (snd (setSplitRatio s1 this)) = setSplitRatio s2 this /\
  fst (setInputs a2 b2 (snd (setInputs a1 b1 this))) = fst (setInputs a2 b2 this) /\
  (threw (fst (setInputs a2 b2 this)) = false ->
   snd (setInputs a2 b2 (snd (setInputs a1 b1 this))) = snd (setInputs a2 b2 this)).
Proof.
  split; [ | split; [ | split]].
  - rewrite !setConversion_eq. reflexivity.
  - rewrite !setSplitRatio_eq. reflexivity.
  - rewrite !setInputs_eq. destruct ((a2 <? fzero) || (b2 <? fzero))%fl; reflexivity.
  - rewrite !setInputs_eq.
    destruct ((a2 <? fzero) || (b2 <? fzero))%fl; [discriminate | ]. intros _.
    destruct ((a1 <? fzero) || (b1 <? fzero))%fl; reflexivity.
Qed.

(** ** How calls compose *)

(** X6: [reset] gives the object a constructor call with the present
    parameters would give: the constructor with the conversion, the mode and
    the split ratio of [this] returns the state [reset] leaves, or throws
    what [validateParams] throws on [this].  A second [reset] changes
    nothing, and neither does a [reset] right after construction. *)
Theorem reset_is_reconstruction (this : ComplexReactor double) :
  new_ComplexReactor (conversion_ this) (twoOutputs_ this) (splitRatio_ this) =
    match validateParams this with
    | Return _ => Return (snd (reset this))
    | Throw e => Throw e
    end /\
  reset (snd (reset this)) = reset this /\
  (forall (conversion : double) (twoOutputs : bool) (splitRatio : double) r,
     new_ComplexReactor conversion twoOutputs splitRatio = Return r ->
     snd (reset r) = r).
Proof.
  split; [ | split].
  - rewrite new_ComplexReactor_eq, validateParams_eq, reset_eq. cbn [snd].
    destruct (outside_unit (conversion_ this)); [reflexivity | ].
    destruct (outside_unit (splitRatio_ this)); reflexivity.
  - rewrite !reset_eq. reflexivity.
  - intros conversion twoOutputs splitRatio r. rewrite new_ComplexReactor_eq.
    destruct (outside_unit conversion); [discriminate | ].
    destruct (outside_unit splitRatio); [discriminate | ].
    intros [= <-]. reflexivity.
Qed.

(** X7: once [runReaction] has been called, further calls of [runReaction]
    and of [getLastOutput], with valid or invalid index, in any number and
    order, change nothing: the object stays as it is and a new run returns
    what the first returned. *)
Theorem reruns_and_reads_change_nothing (this : ComplexReactor double)
    (calls : list (call double)) :
  forallb (fun c => is_run c || is_read c) calls = true ->
  run calls (snd (runReaction this)) = snd (runReaction this) /\
  fst (runReaction (run calls (snd (runReaction this)))) = fst (runReaction this).
Proof.
  intros Hcalls.
  assert (H : run calls (snd (runReaction this)) = snd (runReaction this)).
  { induction calls as [ | c calls IH]; [reflexivity | ].
    cbn [forallb] in Hcalls. apply andb_true_iff in Hcalls as [Hc Hcalls].
    rewrite run_cons.
    assert (E : after c (snd (runReaction this)) = snd (runReaction this)).
    { destruct c; try discriminate.
      - rewrite after_RunReaction, runReaction_eq. reflexivity.
      - apply after_GetLastOutput. }
    rewrite E. apply IH. exact Hcalls. }
  split; [exact H | ]. rewrite H, runReaction_idempotent. reflexivity.
Qed.

(** [reruns_and_reads_change_nothing] after a run of [state_3_3_split_0_3]. *)
Lemma reruns_and_reads_change_nothing_witness :
  fst (runReaction
         (run [GetLastOutput 0; RunReaction; GetLastOutput 7; RunReaction]
            (snd (runReaction state_3_3_split_0_3))))
    = fst (runReaction state_3_3_split_0_3).
Proof.
  exact (proj2 (@reruns_and_reads_change_nothing state_3_3_split_0_3
                  [GetLastOutput 0; RunReaction; GetLastOutput 7; RunReaction]
                  eq_refl)).
Defined.

(** X8: in single-output mode the split ratio has no effect on the result,
    and is validated all the same: [setSplitRatio] changes nothing in what
    [runReaction] returns, yet it throws for a ratio outside [[0,1]], and so
    does the constructor. *)
Theorem single_output_ignores_splitRatio (this : ComplexReactor double)
    (ratio : double) :
  twoOutputs_ this = false ->
  fst (runReaction (snd (setSplitRatio ratio this))) = fst (runReaction this) /\
  (outside_unit ratio = true ->
   threw (fst (setSplitRatio ratio this)) = true /\
   threw (new_ComplexReactor (conversion_ this) false ratio) = true).
Proof.
  intros Htwo. split.
  - rewrite setSplitRatio_eq, !runReaction_eq. unfold products.
    cbn [fst snd a_ b_ conversion_ twoOutputs_]. rewrite Htwo. reflexivity.
  - intros Hr. rewrite setSplitRatio_eq, validateParams_eq, new_ComplexReactor_eq.
    cbn [fst conversion_ splitRatio_]. rewrite Hr.
    destruct (outside_unit (conversion_ this)); split; reflexivity.
Qed.

(** [single_output_ignores_splitRatio] at a default reactor with inputs
    (2, 2) and the ratio 1.2. *)
Lemma single_output_ignores_splitRatio_witness :
  fst (runReaction (snd (setSplitRatio d1_2 state_2_2))) = Return [fone] /\
  threw (fst (setSplitRatio d1_2 state_2_2)) = true.
Proof.
  destruct (single_output_ignores_splitRatio state_2_2 d1_2 eq_refl) as [H1 H2].
  split; [rewrite H1; reflexivity | exact (proj1 (H2 eq_refl))].
Defined.

(** X9: [getLastOutput] reads the result of the last run, not the present
    parameters.  After a run that returned [out], and any calls of setters
    and of [getLastOutput] since, returning or throwing, [getLastOutput(idx)]
    returns the element [idx] of [out] for every [idx] below its length. *)
Theorem getLastOutput_reads_last_run (this : ComplexReactor double)
    (calls : list (call double)) (out : list double) (idx : N) :
  fst (runReaction this) = Return out ->
  forallb (fun c => negb (is_run c || is_reset c)) calls = true ->
  (idx < N.of_nat (List.length out))%N ->
  getLastOutput idx (run calls (snd (runReaction this)))
    = Return (nth (N.to_nat idx) out fzero) /\
  nth_error out (N.to_nat idx) = Some (nth (N.to_nat idx) out fzero).
Proof.
  intros Hout Hcalls Hidx. rewrite runReaction_eq in Hout. injection Hout as <-.
  rewrite getLastOutput_eq, (run_keeps_lastOutputs calls _ Hcalls).
  rewrite runReaction_eq. cbn [snd with_lastOutputs lastOutputs_].
  destruct (N.leb_spec (N.of_nat (List.length (products this))) idx); [lia | ].
  split; [reflexivity | ]. apply nth_error_nth'. lia.
Qed.

(** [getLastOutput_reads_last_run] after a run of [state_3_3_split_0_3],
    then a change of every parameter: the second product is still the one
    of that run. *)
Lemma getLastOutput_reads_last_run_witness :
  getLastOutput 1
    (run [SetInputs fone fone; SetConversion d0_25; SetTwoOutputs false;
          SetSplitRatio d0_7]
       (snd (runReaction state_3_3_split_0_3)))
    = Return (S754_finite false 4728779608739020 (-51)).
Proof.
  exact (proj1 (@getLastOutput_reads_last_run state_3_3_split_0_3
                  [SetInputs fone fone; SetConversion d0_25; SetTwoOutputs false;
                   SetSplitRatio d0_7]
                  [S754_finite false 8106479329266892 (-53);
                   S754_finite false 4728779608739020 (-51)]
                  1 eq_refl eq_refl eq_refl)).
Defined.

(** ** The inputs *)

(** X10: the two inputs can be exchanged.  For numbers [a] and [b] that are
    not zeros of opposite signs, [setInputs(a, b)] and [setInputs(b, a)]
    both return or both throw, and [runReaction] returns the same after
    either. *)
Theorem inputs_can_be_swapped (this : ComplexReactor double) (a b : double) :
  a <> S754_nan -> b <> S754_nan ->
  (forall sg, ~ (a = S754_zero sg /\ b = S754_zero (negb sg))) ->
  fst (setInputs a b this) = fst (setInputs b a this) /\
  fst (runReaction (after (SetInputs a b) this)) =
    fst (runReaction (after (SetInputs b a) this)).
Proof.
  intros Ha Hb Hz. rewrite !after_SetInputs, !setInputs_eq.
  rewrite (orb_comm (b <? fzero)%fl (a <? fzero)%fl).
  destruct ((a <? fzero) || (b <? fzero))%fl; [split; reflexivity | ].
  split; [reflexivity | ]. rewrite !runReaction_eq. unfold products.
  cbn [fst a_ b_ conversion_ twoOutputs_ splitRatio_].
  rewrite (std_min_comm Ha Hb Hz). reflexivity.
Qed.

(** [inputs_can_be_swapped] at the inputs 3 and 10 on a default reactor. *)
Lemma inputs_can_be_swapped_witness :
  fst (runReaction (after (SetInputs d3 d10) default_state)) =
    fst (runReaction (after (SetInputs d10 d3) default_state)).
Proof.
  refine (proj2 (@inputs_can_be_swapped default_state d3 d10 _ _ _)).
  - discriminate.
  - discriminate.
  - intros sg [H _]. discriminate H.
Defined.

(** X11: a NaN input.  [setInputs] accepts a NaN in either place.  As the
    second input it is ignored, the first input alone limiting the
    reaction; as the first input it turns every product into a NaN. *)
Theorem nan_input_asymmetry (this : ComplexReactor double) (x : double) :
  (x <? fzero)%fl = false ->
  fst (setInputs x dNaN this) = Return tt /\
  fst (setInputs dNaN x this) = Return tt /\
  fst (runReaction (after (SetInputs x dNaN) this)) =
    fst (runReaction (after (SetInputs x x) this)) /\
  fst (runReaction (after (SetInputs dNaN x) this)) =
    Return (if twoOutputs_ this then [dNaN; dNaN] else [dNaN]).
Proof.
  intros Hx. rewrite !after_SetInputs, !setInputs_eq. rewrite Hx.
  change (dNaN <? fzero)%fl with false. cbn [orb fst].
  split; [reflexivity | split; [reflexivity | ]].
  rewrite !runReaction_eq. unfold products.
  cbn [fst a_ b_ conversion_ twoOutputs_ splitRatio_].
  assert (E1 : std_min x dNaN = x) by reflexivity.
  assert (E2 : std_min x x = x) by (unfold std_min; destruct (x <? x)%fl; reflexivity).
  assert (E3 : std_min dNaN x = dNaN).
  { unfold std_min. change flt with SFltb. unfold SFltb.
    rewrite (SFcompare_antisym dNaN x). reflexivity. }
  rewrite E1, E2, E3. split; [reflexivity | ].
  destruct (twoOutputs_ this); reflexivity.
Qed.

(** [nan_input_asymmetry] at 2.0 on a default reactor: the NaN in second
    place leaves the product 2 * 0.5 = 1. *)
Lemma nan_input_asymmetry_witness :
  fst (runReaction (after (SetInputs d2 dNaN) default_state)) = Return [fone] /\
  fst (runReaction (after (SetInputs dNaN d2) default_state)) = Return [dNaN].
Proof.
  destruct (nan_input_asymmetry default_state d2 eq_refl) as (_ & _ & H1 & H2).
  split; [rewrite H1; reflexivity | exact H2].
Defined.

(** ** The products *)

(** X12: in a state in range with finite inputs, [runReaction] returns
    finite, non-negative [double]s, none of them above the limiting input:
    no product exceeds either input, in value and under the comparison of
    the code. *)
Theorem products_at_most_limiting (this : ComplexReactor double) :
  members_are_doubles this = true -> in_range this = true ->
  is_finite (a_ this) = true -> is_finite (b_ this) = true ->
  exists out : list double,
    fst (runReaction this) = Return out /\
    Forall (fun o => is_double o = true /\ nonneg_finite o = true /\
                     Qval o <= Qmin (Qval (a_ this)) (Qval (b_ this)) /\
                     (o <=? a_ this)%fl = true /\ (o <=? b_ this)%fl = true) out.
Proof.
  intros Hd Hr Hfa Hfb.
  destruct (in_range_values this Hd Hr Hfa Hfb)
    as ((Hm & Hnm & Hvm) & (Hnc & Hvc) & (Hns & Hvs) & (Hx & Hnx & Hvx)
        & (Ht & Hnt & Hvt)).
  set (limiting := std_min (a_ this) (b_ this)) in *.
  set (reacted := (limiting * conversion_ this)%fl) in *.
  assert (Hout : forall o, is_double o = true -> nonneg_finite o = true ->
                   Qval o <= Qval reacted ->
                   is_double o = true /\ nonneg_finite o = true /\
                   Qval o <= Qmin (Qval (a_ this)) (Qval (b_ this)) /\
                   (o <=? a_ this)%fl = true /\ (o <=? b_ this)%fl = true).
  { intros o Ho Hno Hvo.
    assert (Hmin : Qval o <= Qmin (Qval (a_ this)) (Qval (b_ this)))
      by (rewrite <- Hvm; lra).
    unfold members_are_doubles, in_range in Hd, Hr.
    rewrite !andb_true_iff in Hd, Hr.
    destruct Hd as [[[Ha Hb] _] _], Hr as [[_ Ha0] Hb0].
    repeat split; try assumption.
    - apply SFleb_of_Qle; try assumption; [apply nonneg_of_leb; assumption | ].
      apply Qle_trans with (1 := Hmin). apply Q.le_min_l.
    - apply SFleb_of_Qle; try assumption; [apply nonneg_of_leb; assumption | ].
      apply Qle_trans with (1 := Hmin). apply Q.le_min_r. }
  unfold members_are_doubles in Hd. rewrite !andb_true_iff in Hd.
  destruct Hd as [[[Ha Hb] Hc] Hs].
  exists (products this). rewrite runReaction_eq. split; [reflexivity | ].
  unfold products. fold limiting. fold reacted.
  destruct (twoOutputs_ this).
  - constructor; [ | constructor; [ | constructor]].
    + apply Hout; [apply SFmul_is_double; assumption | | ];
        apply SFmul_le; assumption.
    + apply Hout; [apply SFmul_is_double; assumption | | ];
        apply SFmul_le; assumption.
  - constructor; [ | constructor].
    apply Hout; [assumption | assumption | apply Qle_refl].
Qed.

(** [products_at_most_limiting] at inputs (3, 10), conversion 0.7 and split
    0.3. *)
Lemma products_at_most_limiting_witness :
  exists out : list double,
    fst (runReaction state_3_10_split_0_3) = Return out /\
    Forall (fun o => is_double o = true /\ nonneg_finite o = true /\
                     Qval o <= Qmin (Qval d3) (Qval d10) /\
                     (o <=? d3)%fl = true /\ (o <=? d10)%fl = true) out.
Proof.
  exact (products_at_most_limiting state_3_10_split_0_3
           eq_refl eq_refl eq_refl eq_refl).
Defined.

(** X13: the results in binary64 against the results of the same method in
    exact arithmetic on the same values: each product is within
    [2^-50 * (min(a,b) * c) + 2^-1073] of its exact counterpart. *)
Theorem products_close_to_exact (this : ComplexReactor double) :
  members_are_doubles this = true -> in_range this = true ->
  is_finite (a_ this) = true -> is_finite (b_ this) = true ->
  exists (out : list double) (exact : list Q),
    fst (runReaction this) = Return out /\
    fst (runReaction (exact_state this)) = Return exact /\
    Forall2 (fun o q =>
               Qabs (Qval o - q)
                 <= pow2 (-50) * (Qmin (Qval (a_ this)) (Qval (b_ this))
                                  * Qval (conversion_ this))
                    + pow2 (-1073))
            out exact.
Proof.
  intros Hd Hr Hfa Hfb.
  destruct (in_range_values this Hd Hr Hfa Hfb)
    as ((Hm & Hnm & Hvm) & (Hnc & Hvc) & (Hns & Hvs) & (Hx & Hnx & Hvx)
        & (Ht & Hnt & Hvt)).
  unfold members_are_doubles in Hd. rewrite !andb_true_iff in Hd.
  destruct Hd as [[[Ha Hb] Hc] Hs].
  exists (products this), (products (exact_state this)).
  rewrite !runReaction_eq. split; [reflexivity | split; [reflexivity | ]].
  set (limiting := std_min (a_ this) (b_ this)) in *.
  set (reacted := (limiting * conversion_ this)%fl) in *.
  set (t := (fone - splitRatio_ this)%fl) in *.
  (* the four rounded operations *)
  assert (Hre : Qabs (Qval reacted - Qval limiting * Qval (conversion_ this))
                <= rnd_err (Qval limiting * Qval (conversion_ this))).
  { destruct (SFmul_cases limiting (conversion_ this) Hnm Hnc) as [H | [_ H]];
      [ | exact H].
    change (reacted = S754_infinity false) in H. rewrite H in Hnx. discriminate. }
  assert (Hte : Qabs (Qval t - (1 - Qval (splitRatio_ this)))
                <= rnd_err (1 - Qval (splitRatio_ this))).
  { assert (Hs1 : Qval (splitRatio_ this) <= Qval d1)
      by (rewrite Qval_one; exact Hvs).
    destruct (SFsub_cases d1 (splitRatio_ this) eq_refl Hns Hs1) as [H | [_ H]].
    - change (t = S754_infinity false) in H. rewrite H in Hnt. discriminate.
    - rewrite Qval_one in H. exact H. }
  assert (HRe : Qabs (Qval (reacted * splitRatio_ this)%fl
                      - Qval reacted * Qval (splitRatio_ this))
                <= rnd_err (Qval reacted * Qval (splitRatio_ this))).
  { destruct (SFmul_cases reacted (splitRatio_ this) Hnx Hns) as [H | [_ H]];
      [ | exact H].
    destruct (SFmul_le reacted (splitRatio_ this) Hx Hs Hnx Hns Hvs) as [Hn _].
    rewrite H in Hn. discriminate. }
  assert (HSe : Qabs (Qval (reacted * t)%fl - Qval reacted * Qval t)
                <= rnd_err (Qval reacted * Qval t)).
  { destruct (SFmul_cases reacted t Hnx Hnt) as [H | [_ H]]; [ | exact H].
    destruct (SFmul_le reacted t Hx Ht Hnx Hnt Hvt) as [Hn _].
    rewrite H in Hn. discriminate. }
  unfold rnd_err in *. rewrite pow2_m53 in *.
  destruct (@products_arith (pow2 (-1075))
              (Qval limiting * Qval (conversion_ this)) (Qval reacted)
              (Qval (splitRatio_ this)) (Qval t)
              (Qval (reacted * splitRatio_ this)%fl) (Qval (reacted * t)%fl))
    as (B1 & B2 & B3); try assumption.
  { apply Qlt_le_weak, pow2_pos. }
  { rewrite <- pow2_m53. apply pow2_le. lia. }
  { apply Qmult_le_0_compat; apply Qval_nonneg; assumption. }
  { apply Qval_nonneg; assumption. }
  { apply Qval_nonneg; assumption. }
  { apply Qval_nonneg; assumption. }
  assert (Hbound : 8 * (1 # 9007199254740992)
                     * (Qval limiting * Qval (conversion_ this))
                   + 4 * pow2 (-1075)
                   == pow2 (-50) * (Qmin (Qval (a_ this)) (Qval (b_ this))
                                    * Qval (conversion_ this))
                      + pow2 (-1073)).
  { assert (E50 : pow2 (-50) == 8 * (1 # 9007199254740992)) by reflexivity.
    assert (E1073 : pow2 (-1073) == 4 * pow2 (-1075)).
    { replace (-1073)%Z with (2 + -1075)%Z by lia. rewrite pow2_add. reflexivity. }
    rewrite E50, E1073, Hvm. reflexivity. }
  rewrite Hbound in B1, B2, B3.
  assert (Emin : std_min (Qval (a_ this)) (Qval (b_ this)) == Qval limiting)
    by (rewrite std_min_Qmin, Hvm; reflexivity).
  unfold products, exact_state.
  cbn [a_ b_ conversion_ twoOutputs_ splitRatio_].
  fold limiting. fold reacted. fold t.
  destruct (twoOutputs_ this).
  - constructor; [ | constructor; [ | constructor]]; cbv beta.
    + change (Qabs (Qval (reacted * splitRatio_ this)%fl
                    - std_min (Qval (a_ this)) (Qval (b_ this))
                      * Qval (conversion_ this) * Qval (splitRatio_ this))
              <= pow2 (-50) * (Qmin (Qval (a_ this)) (Qval (b_ this))
                               * Qval (conversion_ this)) + pow2 (-1073)).
      rewrite Emin. exact B2.
    + change (Qabs (Qval (reacted * t)%fl
                    - std_min (Qval (a_ this)) (Qval (b_ this))
                      * Qval (conversion_ this) * (1 - Qval (splitRatio_ this)))
              <= pow2 (-50) * (Qmin (Qval (a_ this)) (Qval (b_ this))
                               * Qval (conversion_ this)) + pow2 (-1073)).
      rewrite Emin. exact B3.
  - constructor; [ | constructor]; cbv beta.
    change (Qabs (Qval reacted
                  - std_min (Qval (a_ this)) (Qval (b_ this))
                    * Qval (conversion_ this))
            <= pow2 (-50) * (Qmin (Qval (a_ this)) (Qval (b_ this))
                             * Qval (conversion_ this)) + pow2 (-1073)).
    rewrite Emin. exact B1.
Qed.

(** [products_close_to_exact] at inputs (3, 10), conversion 0.7 and split
    0.3. *)
Lemma products_close_to_exact_witness :
  exists (out : list double) (exact : list Q),
    fst (runReaction state_3_10_split_0_3) = Return out /\
    fst (runReaction (exact_state state_3_10_split_0_3)) = Return exact /\
    Forall2 (fun o q =>
               Qabs (Qval o - q)
                 <= pow2 (-50) * (Qmin (Qval d3) (Qval d10) * Qval d0_7)
                    + pow2 (-1073))
            out exact.
Proof.
  exact (products_close_to_exact state_3_10_split_0_3
           eq_refl eq_refl eq_refl eq_refl).
Defined.


(** X15: at the ends of the range the split is exact.  In a state in range
    with finite inputs and two products, split ratio 1.0 gives the whole
    reacted amount as the first product and a zero as the second, and split
    ratio 0.0 gives a zero and the whole reacted amount. *)
Theorem split_at_the_ends (this : ComplexReactor double) :
  members_are_doubles this = true -> in_range this = true ->
  is_finite (a_ this) = true -> is_finite (b_ this) = true ->
  twoOutputs_ this = true ->
  let reacted := (std_min (a_ this) (b_ this) * conversion_ this)%fl in
  (splitRatio_ this = fone ->
   exists sg, fst (runReaction this) = Return [reacted; S754_zero sg]) /\
  (splitRatio_ this = fzero ->
   exists sg, fst (runReaction this) = Return [S754_zero sg; reacted]).
Proof.
  intros Hd Hr Hfa Hfb Htwo.
  destruct (in_range_values this Hd Hr Hfa Hfb)
    as (_ & _ & _ & (Hx & Hnx & _) & _).
  cbv zeta. rewrite runReaction_eq. unfold products. rewrite Htwo.
  set (reacted := (std_min (a_ this) (b_ this) * conversion_ this)%fl) in *.
  assert (Hzero : exists sg, (reacted * S754_zero false)%fl = S754_zero sg).
  { destruct reacted as [sx | sx | | [ | ] mx ex]; try discriminate;
      eexists; reflexivity. }
  destruct Hzero as [sg Hzero].
  split; intros ->; exists sg; cbn [fst].
  - change (fone - fone)%fl with (S754_zero false). rewrite Hzero.
    change (reacted * fone)%fl with (SFmul prec emax reacted d1).
    rewrite (SFmul_one reacted Hx). reflexivity.
  - change (reacted * fzero)%fl with (reacted * S754_zero false)%fl. rewrite Hzero.
    change (reacted * (fone - fzero))%fl with (SFmul prec emax reacted d1).
    rewrite (SFmul_one reacted Hx). reflexivity.
Qed.

(** [split_at_the_ends] at inputs (3, 10), conversion 0.7 and split 1. *)
Lemma split_at_the_ends_witness :
  exists sg,
    fst (runReaction state_3_10_split_1) = Return [(d3 * d0_7)%fl; S754_zero sg].
Proof.
  destruct (split_at_the_ends state_3_10_split_1
              eq_refl eq_refl eq_refl eq_refl eq_refl) as [H _].
  exact (H eq_refl).
Defined.

(** X16: with no inputs there are no products.  After [reset], and on a
    newly constructed reactor, a run with conversion and split ratio in
    [[0,1]] returns one zero, or two, by the mode. *)
Theorem run_after_reset_gives_zeros (this : ComplexReactor double) :
  is_double (conversion_ this) = true -> is_double (splitRatio_ this) = true ->
  in_unit (conversion_ this) = true -> in_unit (splitRatio_ this) = true ->
  exists out : list double,
    fst (runReaction (snd (reset this))) = Return out /\
    new_ComplexReactor (conversion_ this) (twoOutputs_ this) (splitRatio_ this)
      = Return (snd (reset this)) /\
    List.length out = (if twoOutputs_ this then 2 else 1)%nat /\
    Forall (fun o => exists sg, o = S754_zero sg) out.
Proof.
  intros Hc Hs Huc Hus.
  assert (Hnew : new_ComplexReactor (conversion_ this) (twoOutputs_ this)
                   (splitRatio_ this) = Return (snd (reset this))).
  { rewrite new_ComplexReactor_eq, reset_eq.
    rewrite (in_unit_not_outside _ Huc), (in_unit_not_outside _ Hus). reflexivity. }
  unfold in_unit in Huc, Hus. apply andb_true_iff in Huc as [Hc0 Hc1].
  apply andb_true_iff in Hus as [Hs0 Hs1].
  destruct (unit_value _ Hc Hc0 Hc1) as [Hnc _].
  destruct (unit_value _ Hs Hs0 Hs1) as [Hns Hvs].
  destruct (SFsub_one _ Hs Hns Hvs) as (_ & Hnt & _).
  exists (products (snd (reset this))).
  rewrite runReaction_eq, reset_eq. unfold products.
  cbn [fst snd a_ b_ conversion_ twoOutputs_ splitRatio_].
  split; [reflexivity | split; [exact Hnew | ]].
  change (std_min fzero fzero) with (S754_zero false).
  cbn [fmul fsub fone double_ops].
  destruct (zero_times_unit false _ Hnc) as [s1 E1]. rewrite E1.
  destruct (zero_times_unit s1 _ Hns) as [s2 E2].
  destruct (zero_times_unit s1 _ Hnt) as [s3 E3]. rewrite E2, E3.
  destruct (twoOutputs_ this); (split; [reflexivity | ]);
    repeat constructor; eexists; reflexivity.
Qed.

(** [run_after_reset_gives_zeros] at [state_3_10_split_0_3]. *)
Lemma run_after_reset_gives_zeros_witness :
  exists out : list double,
    fst (runReaction (snd (reset state_3_10_split_0_3))) = Return out /\
    List.length out = 2%nat /\
    Forall (fun o => exists sg, o = S754_zero sg) out.
Proof.
  destruct (run_after_reset_gives_zeros state_3_10_split_0_3
              eq_refl eq_refl eq_refl eq_refl) as (out & H1 & _ & H2 & H3).
  exists out. split; [exact H1 | split; [exact H2 | exact H3]].
Defined.
